(** * MusiX bot: request / payment orchestration engine

    A shallow embedding of the TypeScript sources
    - [src/services/storage.ts]   (StorageService, the request store),
    - [src/utils/rateLimiter.ts]  (RateLimiter),
    - [src/utils/queue.ts]        (QueueManager),
    - [src/services/payment.ts]   (PaymentService, the payment ledger),
    - [src/utils/recovery.ts]     (RecoverySystem, the checkpoint manager),
    together with the properties the design document states about them.

    Conventions.  A JavaScript [number] that holds a count or a time in
    milliseconds is a [Z]; a [number] that holds an amount of currency is
    kept as the rational [Q] it is, and the arithmetic the code does on
    amounts is done on IEEE 754 doubles, as in JavaScript (module [Number]).
    [Date] values are their [getTime()] in milliseconds.
    [Date.now()] and the answers of the chain RPC are explicit inputs of the
    operation that reads them.  A [Map] whose iteration order is observed is
    an association list in insertion order; the other [Map]s are [gmap]s.
    An [async] method is run to completion: the program is single threaded
    and none of the properties below depends on interleavings. *)

From Stdlib Require Import ZArith QArith Lia List String Ascii Bool.
From Stdlib Require Floats.SpecFloat.
From stdpp Require Import base gmap strings list pretty.

Local Open Scope string_scope.
Local Open Scope list_scope.
Local Open Scope Z_scope.

(** ** Shared vocabulary *)

(** The union type ['pending' | 'completed' | 'failed']. *)
Inductive PaymentStatus : Set := pending | completed | failed.

#[global] Instance PaymentStatus_eq_dec : EqDecision PaymentStatus.
Proof. solve_decision. Defined.

Definition is_pending (st : PaymentStatus) : bool :=
  match st with pending => true | _ => false end.

(** Outcome of a method that may throw. *)
Inductive result (A : Type) : Type :=
| Ok (a : A)
| Throw (message : string).
Arguments Ok {A} a.
Arguments Throw {A} message.

(** ** JavaScript [Map] with observable insertion order *)

Module JsMap.

(** [m.get(k)] *)
Fixpoint get {V : Type} (k : string) (m : list (string * V)) : option V :=
  match m with
  | [] => None
  | (k', v) :: rest => if decide (k' = k) then Some v else get k rest
  end.

(** [m.set(k, v)]: an existing key keeps its position, a new key goes last. *)
Fixpoint set {V : Type} (k : string) (v : V) (m : list (string * V))
  : list (string * V) :=
  match m with
  | [] => [(k, v)]
  | (k', v') :: rest =>
      if decide (k' = k) then (k, v) :: rest else (k', v') :: set k v rest
  end.

(** [m.keys()] and [m.values()], in iteration order. *)
Definition keys {V : Type} (m : list (string * V)) : list string := map fst m.
Definition values {V : Type} (m : list (string * V)) : list V := map snd m.

(** [m.delete(k)] *)
Fixpoint delete {V : Type} (k : string) (m : list (string * V))
  : list (string * V) :=
  match m with
  | [] => []
  | (k', v) :: rest =>
      if decide (k' = k) then rest else (k', v) :: delete k rest
  end.

End JsMap.

(** ** StorageService  (src/services/storage.ts) *)

Module Storage.

Record WalletAddresses : Type := {
  btc : string;
  eth : string;
  sol : string;
  usdt : string
}.

(** The [payment] member of a [StoredRequest]. *)
Record Payment : Type := {
  orderId : string;
  status : PaymentStatus;
  amount : Q;
  walletAddresses : WalletAddresses
}.

Record StoredRequest : Type := {
  tweetId : string;
  userId : string;
  prompt : string;
  payment : Payment;
  timestamp : Z
}.

(** [interface SystemState] of recovery.ts: the object that
    [saveCheckpoint] builds.  Its two arrays hold what [getPendingRequests] and [getPendingPayments]
    return. *)
Record SystemState : Type := {
  stateTimestamp : Z;
  pendingRequests : list StoredRequest;
  pendingPayments : list Payment;
  activeServices : list string
}.

(** The strings kept in the key-value storage, by what they spell:
    the output of [JSON.stringify] on a [SystemState], the output of
    [toString] on a number, or any other text. *)
Inductive Text : Type :=
| StateText (st : SystemState)
| NumberText (q : Q)
| OtherText (raw : string).

(** The service.  [requests] is the [Map] of the class, in insertion order.
    payment.ts and recovery.ts call four methods on the service that
    storage.ts does not define: [getValue], [setValue], [getPendingRequests]
    and [getPendingPayments].  On the service of the repository each such
    call is a call of [undefined] and throws a [TypeError]: this is a
    service with [reachable = false].  A service with [reachable = true] has
    the four methods as the design document describes them, over the
    key-value storage [cells].  The [checkpoints] array of the class, with [saveCheckpoint]
    and [getLastCheckpoint], is used by none of the other components and is
    modelled on its own in [Checkpoints] below. *)
Record StorageService : Type := {
  requests : list (string * StoredRequest);
  cells : gmap string Text;
  reachable : bool
}.

(** [new StorageService()] in front of a given key-value storage. *)
Definition create (kv : gmap string Text) (up : bool) : StorageService :=
  {| requests := []; cells := kv; reachable := up |}.

Definition withRequests (s : StorageService) (m : list (string * StoredRequest))
  : StorageService :=
  {| requests := m; cells := cells s; reachable := reachable s |}.

(** [request.payment.status = status] *)
Definition withStatus (st : PaymentStatus) (r : StoredRequest) : StoredRequest :=
  {| tweetId := tweetId r;
     userId := userId r;
     prompt := prompt r;
     payment := {| orderId := orderId (payment r);
                   status := st;
                   amount := amount (payment r);
                   walletAddresses := walletAddresses (payment r) |};
     timestamp := timestamp r |}.

(** [storeRequest]: [this.requests.set(request.tweetId, request)] inside a
    [try] whose handler logs and re-throws.  The only throw the body can
    raise is the [TypeError] of reading [tweetId] from [null]. *)
Definition storeRequest (s : StorageService) (request : option StoredRequest)
  : result StorageService :=
  match request with
  | Some r => Ok (withRequests s (JsMap.set (tweetId r) r (requests s)))
  | None => Throw "TypeError: cannot read tweetId of null"
  end.

Definition getRequest (s : StorageService) (id : string) : option StoredRequest :=
  JsMap.get id (requests s).

(** The [for ... of this.requests.values()] loop of [updatePaymentStatus] up
    to its [break]: the first request whose order id matches has its status
    assigned in place.  Returns the map after the assignment and the request
    object that was assigned to, or [None] when the loop ends without a match. *)
Fixpoint assignFirst (oid : string) (st : PaymentStatus)
  (m : list (string * StoredRequest))
  : option (list (string * StoredRequest) * StoredRequest) :=
  match m with
  | [] => None
  | (k, r) :: rest =>
      if decide (orderId (payment r) = oid)
      then Some ((k, withStatus st r) :: rest, withStatus st r)
      else match assignFirst oid st rest with
           | Some (rest', r') => Some ((k, r) :: rest', r')
           | None => None
           end
  end.

Definition updatePaymentStatus (s : StorageService) (oid : string)
  (st : PaymentStatus) : StorageService :=
  match assignFirst oid st (requests s) with
  | Some (m, r) => withRequests s (JsMap.set (tweetId r) r m)
  | None => s
  end.

(** Modelled from the spec: [getValue] is called on the storage service by
    recovery.ts and payment.ts, but storage.ts has no such method: on the
    service of the repository ([reachable s = false]) the call throws a
    [TypeError].  Otherwise the method is the one of the design document,
    which gives the durable storage capability as
    [get(key) -> bytes | absent]. *)
Definition getValue (s : StorageService) (key : string) : result (option Text) :=
  if reachable s then Ok (cells s !! key)
  else Throw "TypeError: this.storageService.getValue is not a function".

(** Modelled from the spec: [setValue] is called on the storage service by
    recovery.ts and payment.ts, but storage.ts has no such method: on the
    service of the repository ([reachable s = false]) the call throws a
    [TypeError].  Otherwise the method is the one of the design document,
    [set(key, bytes)]. *)
Definition setValue (s : StorageService) (key : string) (v : Text)
  : result StorageService :=
  if reachable s
  then Ok {| requests := requests s; cells := <[key := v]> (cells s);
             reachable := reachable s |}
  else Throw "TypeError: this.storageService.setValue is not a function".

(** Modelled from the spec: [getPendingRequests] is called by recovery.ts,
    but storage.ts has no such method: on the service of the repository
    ([reachable s = false]) the call throws a [TypeError].  Otherwise the
    method is the one of the design document, which says a checkpoint
    snapshots all pending requests, in iteration order of the store; a
    request is pending when its payment is. *)
Definition getPendingRequests (s : StorageService) : result (list StoredRequest) :=
  if reachable s
  then Ok (filter (fun r => is_pending (status (payment r)) = true)
                  (JsMap.values (requests s)))
  else Throw "TypeError: this.storageService.getPendingRequests is not a function".

(** Modelled from the spec: [getPendingPayments] is called by recovery.ts,
    but storage.ts has no such method: on the service of the repository
    ([reachable s = false]) the call throws a [TypeError].  Otherwise the
    method is the one of the design document, which says a checkpoint
    snapshots all pending payments; the store holds payments only inside
    its requests. *)
Definition getPendingPayments (s : StorageService) : result (list Payment) :=
  if reachable s
  then Ok (map payment
             (filter (fun r => is_pending (status (payment r)) = true)
                     (JsMap.values (requests s))))
  else Throw "TypeError: this.storageService.getPendingPayments is not a function".

(** The store invariant that [storeRequest] maintains: every request is
    filed under its own tweet id, and, as in any [Map], keys are distinct. *)
Definition wellKeyed (m : list (string * StoredRequest)) : Prop :=
  Forall (fun kr => fst kr = tweetId (snd kr)) m /\ NoDup (JsMap.keys m).

(** Position of the first request with the given order id, if any. *)
Fixpoint firstMatch (oid : string) (m : list (string * StoredRequest))
  : option nat :=
  match m with
  | [] => None
  | (_, r) :: rest =>
      if decide (orderId (payment r) = oid) then Some 0%nat
      else S <$> firstMatch oid rest
  end.

Definition ONE_HOUR : Z := 60 * 60 * 1000.
Definition TWO_DAYS : Z := 2 * 24 * 60 * 60 * 1000.

(** [getExpiredRequests()], [now] being [Date.now()]. *)
Definition getExpiredRequests (s : StorageService) (now : Z) : list StoredRequest :=
  filter (fun request => now - timestamp request > ONE_HOUR
                         /\ status (payment request) = pending)
         (JsMap.values (requests s)).

(** [cleanup()], [now] being [Date.now()]: the [for ... of] loop over the
    entries of the map, deleting the key of every entry that is too old.
    A deletion removes the entry the loop is at, so the loop sees the
    entries the map had when it started. *)
Definition cleanup (s : StorageService) (now : Z) : StorageService :=
  withRequests s
    (foldl (fun acc kr => if decide (now - timestamp (snd kr) > TWO_DAYS)
                          then JsMap.delete (fst kr) acc
                          else acc)
           (requests s) (requests s)).

(** The calls that change the request store. *)
Inductive Mutation : Type :=
| Store (request : StoredRequest)
| UpdateStatus (oid : string) (st : PaymentStatus)
| Cleanup (now : Z).

Definition mutate (s : StorageService) (c : Mutation) : StorageService :=
  match c with
  | Store request =>
      match storeRequest s (Some request) with
      | Ok s' => s'
      | Throw _ => s
      end
  | UpdateStatus oid st => updatePaymentStatus s oid st
  | Cleanup now => cleanup s now
  end.

End Storage.

(** ** The checkpoint array of StorageService  (src/services/storage.ts) *)

Module Checkpoints.

Record Checkpoint : Type := {
  timestamp : Z;
  pendingRequests : list Storage.StoredRequest;
  pendingPayments : list Storage.Payment
}.

(** [saveCheckpoint(checkpoint)] on the [checkpoints] array: [push], then
    [shift] when more than five are held. *)
Definition saveCheckpoint (checkpoints : list Checkpoint) (checkpoint : Checkpoint)
  : list Checkpoint :=
  let pushed := checkpoints ++ [checkpoint] in
  if (5 <? length pushed)%nat then tail pushed else pushed.

(** [getLastCheckpoint()]: [this.checkpoints[this.checkpoints.length - 1]];
    on the empty array the index is -1 and the answer [undefined]. *)
Definition getLastCheckpoint (checkpoints : list Checkpoint) : option Checkpoint :=
  match checkpoints with
  | [] => None
  | _ :: _ => checkpoints !! (length checkpoints - 1)%nat
  end.

End Checkpoints.

(** ** RateLimiter  (src/utils/rateLimiter.ts) *)

Module Limiter.

Record RateLimit : Type := {
  count : Z;
  resetTime : Z
}.

Record RateLimiter : Type := {
  limits : gmap string RateLimit;
  maxRequestsPerHour : Z
}.

(** [new RateLimiter(maxRequestsPerHour = 10)] *)
Definition create (ceiling : option Z) : RateLimiter :=
  {| limits := ∅; maxRequestsPerHour := default 10 ceiling |}.

Definition ONE_HOUR : Z := 60 * 60 * 1000.

Definition withLimit (rl : RateLimiter) (userId : string) (l : RateLimit)
  : RateLimiter :=
  {| limits := <[userId := l]> (limits rl);
     maxRequestsPerHour := maxRequestsPerHour rl |}.

(** [checkLimit(userId)], with [now] the value of [Date.now()]. *)
Definition checkLimit (rl : RateLimiter) (userId : string) (now : Z)
  : bool * RateLimiter :=
  let fresh :=
    (true, withLimit rl userId {| count := 1; resetTime := now + ONE_HOUR |}) in
  match limits rl !! userId with
  | None => fresh
  | Some userLimit =>
      if now >? resetTime userLimit then fresh
      else if count userLimit >=? maxRequestsPerHour rl then (false, rl)
      else (true, withLimit rl userId
                    {| count := count userLimit + 1;
                       resetTime := resetTime userLimit |})
  end.

(** [getTimeUntilReset(userId)] *)
Definition getTimeUntilReset (rl : RateLimiter) (userId : string) (now : Z) : Z :=
  match limits rl !! userId with
  | None => 0
  | Some userLimit => Z.max 0 (resetTime userLimit - now)
  end.

(** [cleanup()] *)
Definition cleanup (rl : RateLimiter) (now : Z) : RateLimiter :=
  {| limits := filter (fun kv => ¬ (now > resetTime (snd kv))) (limits rl);
     maxRequestsPerHour := maxRequestsPerHour rl |}.

(** Successive [checkLimit] calls of one user at the given times; the
    answers are listed in call order. *)
Fixpoint checkLimits (rl : RateLimiter) (userId : string) (times : list Z)
  : list bool * RateLimiter :=
  match times with
  | [] => ([], rl)
  | now :: later =>
      let '(allowed, rl1) := checkLimit rl userId now in
      let '(answers, rl2) := checkLimits rl1 userId later in
      (allowed :: answers, rl2)
  end.

(** The user has no window, or its window is over, at time [now]. *)
Definition windowless (rl : RateLimiter) (userId : string) (now : Z) : Prop :=
  match limits rl !! userId with
  | None => True
  | Some userLimit => now > resetTime userLimit
  end.

(** [checkLimit] calls of any users at any times, one after the other;
    each call is a user id and the clock reading. *)
Definition checkAll (rl : RateLimiter) (calls : list (string * Z)) : RateLimiter :=
  foldl (fun acc c => snd (checkLimit acc (fst c) (snd c))) rl calls.

End Limiter.

(** ** QueueManager  (src/utils/queue.ts) *)

Module Queue.

(** A queued task.  The operation [task] is a closure whose promise either
    resolves or rejects each time it is called; [task n] tells whether the
    call made after [n] earlier calls resolves.  A task enters the queue
    with [retries = 0], and every earlier call of its operation was a
    rejection that incremented [retries]: the call the loop makes is
    [task retries].  An operation whose promise never settles, or that adds
    tasks to the queue itself, is outside the model. *)
Record QueueTask : Type := {
  id : string;
  task : nat -> bool;
  retries : nat
}.

(** What the logger and the task closures observe, in order. *)
Inductive Event : Type :=
| Called (taskId : string) (resolved : bool)
| Retrying (taskId : string) (attempt : nat)
| GaveUp (taskId : string).

Record QueueManager : Type := {
  queue : list QueueTask;
  processing : bool;
  maxRetries : nat;
  events : list Event
}.

(** [new QueueManager()]: [maxRetries = 3]. *)
Definition create : QueueManager :=
  {| queue := []; processing := false; maxRetries := 3; events := [] |}.

Definition withQueue (q : QueueManager) (l : list QueueTask) (evs : list Event)
  : QueueManager :=
  {| queue := l; processing := processing q; maxRetries := maxRetries q;
     events := events q ++ evs |}.

Definition withProcessing (q : QueueManager) (b : bool) : QueueManager :=
  {| queue := queue q; processing := b; maxRetries := maxRetries q;
     events := events q |}.

(** [currentTask.retries++] *)
Definition retried (t : QueueTask) : QueueTask :=
  {| id := id t; task := task t; retries := S (retries t) |}.

(** One turn of the [while (this.queue.length > 0)] loop of [processQueue]. *)
Definition turn (q : QueueManager) : QueueManager :=
  match queue q with
  | [] => q
  | currentTask :: rest =>
      if task currentTask (retries currentTask)
      then withQueue q rest [Called (id currentTask) true]
      else if (retries currentTask <? maxRetries q)%nat
      then withQueue q (retried currentTask :: rest)
             [Called (id currentTask) false;
              Retrying (id currentTask) (S (retries currentTask))]
      else withQueue q rest
             [Called (id currentTask) false; GaveUp (id currentTask)]
  end.

(** The [while] loop, with a bound on the number of turns. *)
Fixpoint loop (fuel : nat) (q : QueueManager) : option QueueManager :=
  match queue q with
  | [] => Some q
  | _ :: _ =>
      match fuel with
      | O => None
      | S fuel' => loop fuel' (turn q)
      end
  end.

(** [processQueue()] *)
Definition processQueue (fuel : nat) (q : QueueManager) : option QueueManager :=
  if processing q || bool_decide (queue q = [])
  then Some q
  else (fun q' => withProcessing q' false) <$> loop fuel (withProcessing q true).

(** [this.queue.push({ id, task, retries: 0 })], the first statement of
    [addTask]. *)
Definition push (q : QueueManager) (taskId : string) (op : nat -> bool)
  : QueueManager :=
  withQueue q (queue q ++ [{| id := taskId; task := op; retries := 0 |}]) [].

(** [addTask(id, task)] when the loop it starts runs to its end before the
    caller goes on: the push, then [processQueue] if the manager is idle. *)
Definition addTask (fuel : nat) (q : QueueManager) (taskId : string)
  (op : nat -> bool) : option QueueManager :=
  let q' := push q taskId op in
  if processing q' then Some q' else processQueue fuel q'.

(** Number of turns the loop needs at most for one task and for a queue. *)
Definition turnsLeft (limit : nat) (t : QueueTask) : nat :=
  S (limit - retries t).

Definition budget (q : QueueManager) : nat :=
  sum_list (map (turnsLeft (maxRetries q)) (queue q)).

(** The task ids in the order their operations were called. *)
Definition callOrder (evs : list Event) : list string :=
  omap (fun e => match e with Called i _ => Some i | _ => None end) evs.

(** How often the operation of a task was called. *)
Definition calls (taskId : string) (evs : list Event) : nat :=
  length (filter (fun i => i = taskId) (callOrder evs)).

(** What is observed while the head task is called and rejects [count]
    times in a row, each rejection followed by a retry, when it had been
    retried [from] times before. *)
Fixpoint retryEvents (taskId : string) (from count : nat) : list Event :=
  match count with
  | O => []
  | S count' =>
      Called taskId false :: Retrying taskId (S from)
        :: retryEvents taskId (S from) count'
  end.

End Queue.

(** ** RetryManager  (src/utils/retry.ts) *)

Module Retry.

(** [interface RetryOptions].  [backoff] is optional and an absent one is
    falsy; [onRetry] tells whether a callback is given.  The callbacks the
    program passes only log or update a status, and are taken not to throw. *)
Record RetryOptions : Type := {
  maxAttempts : Z;
  delay : Z;
  backoff : bool;
  onRetry : bool
}.

(** The default [{ maxAttempts: 3, delay: 1000, backoff: true }]. *)
Definition defaultOptions : RetryOptions :=
  {| maxAttempts := 3; delay := 1000; backoff := true; onRetry := false |}.

(** What the operation, the callback and the timer observe, in order. *)
Inductive Event : Type :=
| Called (attempt : nat)
| Notified (message : string) (attempt : nat)
| Slept (ms : Z).

(** [options.backoff ? options.delay * Math.pow(2, attempt - 1) : options.delay] *)
Definition delayTime (options : RetryOptions) (attempt : nat) : Z :=
  if backoff options
  then delay options * 2 ^ (Z.of_nat attempt - 1)
  else delay options.

(** [if (options.onRetry) options.onRetry(error, attempt)] *)
Definition notify (options : RetryOptions) (message : string) (attempt : nat)
  : list Event :=
  if onRetry options then [Notified message attempt] else [].

(** The [for (attempt = 1; attempt <= options.maxAttempts; attempt++)] loop
    of [retry] from a given [attempt] on, with [remaining] turns to go, and
    the [throw lastError] after it.  The operation is a closure; its call
    number [n] (from 0) ends as [operation n]: [Ok] when the promise
    resolves, [Throw] with the message of the error when it rejects. *)
Fixpoint retryFrom {T : Type} (operation : nat -> result T)
  (options : RetryOptions) (remaining attempt : nat) (lastError : string)
  : result T * list Event :=
  match remaining with
  | O => (Throw lastError, [])
  | S remaining' =>
      match operation (attempt - 1)%nat with
      | Ok value => (Ok value, [Called attempt])
      | Throw message =>
          if Z.of_nat attempt =? maxAttempts options
          then (Throw message, [Called attempt])
          else
            let '(outcome, evs) :=
              retryFrom operation options remaining' (S attempt) message in
            (outcome,
             Called attempt :: notify options message attempt
               ++ Slept (delayTime options attempt) :: evs)
      end
  end.

(** [retry(operation, options)] *)
Definition retry {T : Type} (operation : nat -> result T) (options : RetryOptions)
  : result T * list Event :=
  retryFrom operation options (Z.to_nat (maxAttempts options)) 1 "No attempts made".

(** The loop of [retryWithCondition].  A result that fails the condition on
    the last attempt throws inside the [try], and the [catch] of the same
    turn throws it on; on an earlier attempt the wait happens inside the
    [try] and [lastError] is left as it was. *)
Fixpoint retryWithConditionFrom {T : Type} (operation : nat -> result T)
  (condition : T -> bool) (options : RetryOptions) (remaining attempt : nat)
  (lastError : string) : result T * list Event :=
  match remaining with
  | O => (Throw lastError, [])
  | S remaining' =>
      match operation (attempt - 1)%nat with
      | Ok value =>
          if condition value then (Ok value, [Called attempt])
          else if Z.of_nat attempt =? maxAttempts options
          then (Throw "Condition not met after all attempts", [Called attempt])
          else
            let '(outcome, evs) :=
              retryWithConditionFrom operation condition options remaining'
                (S attempt) lastError in
            (outcome,
             Called attempt :: notify options "Condition not met" attempt
               ++ Slept (delayTime options attempt) :: evs)
      | Throw message =>
          if Z.of_nat attempt =? maxAttempts options
          then (Throw message, [Called attempt])
          else
            let '(outcome, evs) :=
              retryWithConditionFrom operation condition options remaining'
                (S attempt) message in
            (outcome,
             Called attempt :: notify options message attempt
               ++ Slept (delayTime options attempt) :: evs)
      end
  end.

(** [retryWithCondition(operation, condition, options)] *)
Definition retryWithCondition {T : Type} (operation : nat -> result T)
  (condition : T -> bool) (options : RetryOptions) : result T * list Event :=
  retryWithConditionFrom operation condition options
    (Z.to_nat (maxAttempts options)) 1 "No attempts made".

(** The attempts made, the waits and the notifications, in order. *)
Definition attempts (evs : list Event) : list nat :=
  omap (fun e => match e with Called a => Some a | _ => None end) evs.

Definition waits (evs : list Event) : list Z :=
  omap (fun e => match e with Slept ms => Some ms | _ => None end) evs.

Definition notifications (evs : list Event) : list (string * nat) :=
  omap (fun e => match e with Notified m a => Some (m, a) | _ => None end) evs.

(** What is observed while [count] attempts in a row, from [attempt] on,
    reject with the messages [messages] (by call number) and are followed by
    a wait. *)
Fixpoint rejections (options : RetryOptions) (messages : nat -> string)
  (attempt count : nat) : list Event :=
  match count with
  | O => []
  | S count' =>
      Called attempt :: notify options (messages (attempt - 1)%nat) attempt
        ++ Slept (delayTime options attempt)
        :: rejections options messages (S attempt) count'
  end.

(** The same for results that fail the condition of [retryWithCondition]. *)
Fixpoint unmet (options : RetryOptions) (attempt count : nat) : list Event :=
  match count with
  | O => []
  | S count' =>
      Called attempt :: notify options "Condition not met" attempt
        ++ Slept (delayTime options attempt)
        :: unmet options (S attempt) count'
  end.

End Retry.

(** ** Numbers  (IEEE 754 doubles) *)

Module Number.

(** A JavaScript [number] in the arithmetic of amounts: an IEEE 754
    binary64 value, with the operations of the standard library's
    executable specification of the format. *)
Definition number : Type := SpecFloat.spec_float.

Definition prec : Z := 53.
Definition emax : Z := 1024.

(** The double nearest to a rational, ties to even: what a numeric literal
    denotes and what [parseFloat] gives for a decimal text.  The division is
    the correctly rounded one, on the numerator and the denominator as
    integers. *)
Definition ofQ (q : Q) : number :=
  match Qnum q with
  | Z0 => SpecFloat.S754_zero false
  | Zpos n =>
      SpecFloat.SFdiv prec emax (SpecFloat.S754_finite false n 0)
        (SpecFloat.S754_finite false (Qden q) 0)
  | Zneg n =>
      SpecFloat.SFdiv prec emax (SpecFloat.S754_finite true n 0)
        (SpecFloat.S754_finite false (Qden q) 0)
  end.

(** [a - b], [a / b], [Math.abs(a)] and [a <= b]. *)
Definition sub (a b : number) : number := SpecFloat.SFsub prec emax a b.
Definition div (a b : number) : number := SpecFloat.SFdiv prec emax a b.
Definition abs (a : number) : number := SpecFloat.SFabs a.
Definition leb (a b : number) : bool := SpecFloat.SFleb a b.

End Number.

(** ** PaymentService  (src/services/payment.ts) *)

Module Payment.

Record PaymentDetails : Type := {
  orderId : string;
  amount : Q;
  userId : string;
  tweetId : string;
  walletAddresses : Storage.WalletAddresses;
  status : PaymentStatus;
  timestamp : Z
}.

Record PaymentRetryConfig : Type := {
  maxAttempts : Z;
  delayBetweenAttempts : Z;
  maxVerificationTime : Z
}.

(** [interface PaymentError]; its [orderId] member is [failedOrderId] here. *)
Record PaymentError : Type := {
  failedOrderId : string;
  error : string;
  attempts : Z;
  lastAttempt : Z
}.

(** [wallets] holds the four [process.env.*_WALLET] values ([''] if unset). *)
Record PaymentService : Type := {
  storageService : Storage.StorageService;
  payments : gmap string PaymentDetails;
  failedPayments : gmap string PaymentError;
  retryConfig : PaymentRetryConfig;
  wallets : Storage.WalletAddresses
}.

(** A transaction as [web3.eth.getTransaction] returns it: [to] is absent for
    a contract creation, [value] is the amount in ether that the decimal
    text [fromWei(tx.value, 'ether')] spells (the value in wei over 10^18,
    exactly). *)
Record Transaction : Type := {
  to : option string;
  value : Q
}.

(** What one call of a service method reads from outside: the clock, and the
    answers of the chain RPC.  An RPC call that rejects, or a [web3] that was
    never configured, is a [Throw].  [getBalance] answers in ether. *)
Record Env : Type := {
  now : Z;
  getTransaction : string -> result (option Transaction);
  getBalance : string -> result Q
}.

(** The constructor: an empty ledger with the fixed retry configuration. *)
Definition create (storage : Storage.StorageService)
  (envWallets : Storage.WalletAddresses) : PaymentService :=
  {| storageService := storage;
     payments := ∅;
     failedPayments := ∅;
     retryConfig := {| maxAttempts := 3;
                       delayBetweenAttempts := 5 * 60 * 1000;
                       maxVerificationTime := 30 * 60 * 1000 |};
     wallets := envWallets |}.

Definition withStorage (ps : PaymentService) (s : Storage.StorageService)
  : PaymentService :=
  {| storageService := s; payments := payments ps;
     failedPayments := failedPayments ps; retryConfig := retryConfig ps;
     wallets := wallets ps |}.

Definition withPayments (ps : PaymentService) (m : gmap string PaymentDetails)
  : PaymentService :=
  {| storageService := storageService ps; payments := m;
     failedPayments := failedPayments ps; retryConfig := retryConfig ps;
     wallets := wallets ps |}.

Definition withFailedPayments (ps : PaymentService) (m : gmap string PaymentError)
  : PaymentService :=
  {| storageService := storageService ps; payments := payments ps;
     failedPayments := m; retryConfig := retryConfig ps;
     wallets := wallets ps |}.

Definition withStatus (st : PaymentStatus) (p : PaymentDetails) : PaymentDetails :=
  {| orderId := orderId p; amount := amount p; userId := userId p;
     tweetId := tweetId p; walletAddresses := walletAddresses p;
     status := st; timestamp := timestamp p |}.

(** [s.slice(-n)] *)
Definition sliceLast (n : nat) (s : string) : string :=
  substring (String.length s - n) n s.

(** [s.toLowerCase()] on ASCII text. *)
Definition lowerAscii (c : ascii) : ascii :=
  let n := nat_of_ascii c in
  if ((65 <=? n) && (n <=? 90))%nat then ascii_of_nat (n + 32) else c.

Fixpoint toLowerCase (s : string) : string :=
  match s with
  | EmptyString => EmptyString
  | String c rest => String (lowerAscii c) (toLowerCase rest)
  end.

(** [createPaymentRequest(userId, tweetId)], [now] being [Date.now()]. *)
Definition createPaymentRequest (ps : PaymentService) (user tweet : string)
  (now : Z) : PaymentDetails * PaymentService :=
  let oid := String.append "PAY-"
               (String.append (pretty now)
                  (String.append "-" (sliceLast 4 user))) in
  let payment :=
    {| orderId := oid; amount := 10; userId := user; tweetId := tweet;
       walletAddresses := wallets ps; status := pending; timestamp := now |} in
  (payment, withPayments ps (<[oid := payment]> (payments ps))).

(** [getEtherPrice()] *)
Definition getEtherPrice : Q := 2000.

(** [payment.amount / etherPrice] *)
Definition expectedAmount (payment : PaymentDetails) : Number.number :=
  Number.div (Number.ofQ (amount payment)) (Number.ofQ getEtherPrice).

(** [Math.abs(a - e) / e <= 0.05], computed on doubles as written: the
    subtraction, the division and the literal each round to the nearest
    double.  Dividing by zero gives [Infinity] or [NaN], and neither is
    [<= 0.05]. *)
Definition withinTolerance (a e : Number.number) : bool :=
  Number.leb (Number.div (Number.abs (Number.sub a e)) e)
             (Number.ofQ (5 # 100)).

(** [verifyEthereumTransaction(txHash, payment)]; any throw inside is caught
    and answered [false]. *)
Definition verifyEthereumTransaction (env : Env) (txHash : string)
  (payment : PaymentDetails) : bool :=
  match getTransaction env txHash with
  | Throw _ => false
  | Ok None => false
  | Ok (Some tx) =>
      match to tx with
      | None => false
      | Some dest =>
          if decide (toLowerCase dest
                     = toLowerCase (Storage.eth (walletAddresses payment)))
          then withinTolerance (Number.ofQ (value tx)) (expectedAmount payment)
          else false
      end
  end.

(** [parseFloat(v || '0')] for what [getValue] returned; [None] is [NaN]. *)
Definition parseFloatOrZero (v : option Storage.Text) : option Q :=
  match v with
  | None => Some 0%Q
  | Some (Storage.NumberText q) => Some q
  | Some (Storage.OtherText EmptyString) => Some 0%Q
  | Some _ => None
  end.

(** [a > b] on numbers; a comparison with [NaN] is false. *)
Definition greater (a : Q) (b : option Q) : bool :=
  match b with
  | Some q => negb (Qle_bool a q)
  | None => false
  end.

(** [checkPaymentAddresses(payment)]; any throw inside is caught and answered
    [false].  The balance last seen is kept in the key-value storage. *)
Definition checkPaymentAddresses (env : Env) (s : Storage.StorageService)
  (payment : PaymentDetails) : bool * Storage.StorageService :=
  let address := Storage.eth (walletAddresses payment) in
  let key := String.append "balance_" address in
  match getBalance env address with
  | Throw _ => (false, s)
  | Ok currentBalance =>
      match Storage.getValue s key with
      | Throw _ => (false, s)
      | Ok stored =>
          let lastBalance := parseFloatOrZero stored in
          match Storage.setValue s key (Storage.NumberText currentBalance) with
          | Throw _ => (false, s)
          | Ok s' => (greater currentBalance lastBalance, s')
          end
      end
  end.

(** [payment.status = st; this.payments.set(payment.orderId, payment)].
    [payment] is the object found under the key [ref]: the assignment changes
    that entry, and the [set] files the same object under its order id. *)
Definition assignStatus (ps : PaymentService) (ref : string)
  (payment : PaymentDetails) (st : PaymentStatus) : PaymentService :=
  let p := withStatus st payment in
  withPayments ps (<[orderId p := p]> (<[ref := p]> (payments ps))).

Definition updateStored (ps : PaymentService) (oid : string) (st : PaymentStatus)
  : PaymentService :=
  withStorage ps (Storage.updatePaymentStatus (storageService ps) oid st).

Definition handleSuccessfulPayment (ps : PaymentService) (ref : string)
  (payment : PaymentDetails) : PaymentService :=
  let ps1 := assignStatus ps ref payment completed in
  let ps2 := withFailedPayments ps1 (delete (orderId payment) (failedPayments ps1)) in
  updateStored ps2 (orderId payment) completed.

(** The failure record both [handleFailedVerification] and
    [handlePaymentError] write. *)
Definition recordFailure (ps : PaymentService) (oid message : string) (now : Z)
  : PaymentService :=
  let failedPayment := failedPayments ps !! oid in
  withFailedPayments ps
    (<[oid := {| failedOrderId := oid;
                 error := message;
                 attempts := match failedPayment with
                             | Some f => attempts f + 1
                             | None => 1
                             end;
                 lastAttempt := now |}]> (failedPayments ps)).

Definition handleFailedVerification (ps : PaymentService)
  (payment : PaymentDetails) (now : Z) : PaymentService :=
  recordFailure ps (orderId payment) "Payment verification failed" now.

Definition handleMaxRetriesExceeded (ps : PaymentService) (ref : string)
  (payment : PaymentDetails) : PaymentService :=
  updateStored (assignStatus ps ref payment failed) (orderId payment) failed.

Definition handleExpiredPayment (ps : PaymentService) (ref : string)
  (payment : PaymentDetails) : PaymentService :=
  updateStored (assignStatus ps ref payment failed) (orderId payment) failed.

Definition handlePaymentError (ps : PaymentService) (oid message : string)
  (now : Z) : PaymentService :=
  recordFailure ps oid message now.

Definition hasPaymentExpired (ps : PaymentService) (payment : PaymentDetails)
  (now : Z) : bool :=
  now - timestamp payment >? maxVerificationTime (retryConfig ps).

(** The attempt count [retryVerification] reads. *)
Definition attemptsOf (ps : PaymentService) (oid : string) : Z :=
  match failedPayments ps !! oid with
  | Some failedPayment => attempts failedPayment
  | None => 0
  end.

(** The external check [retryVerification] delegates to: by transaction hash
    when a non-empty hash is given, by balance otherwise. *)
Definition externalCheck (ps : PaymentService) (payment : PaymentDetails)
  (txHash : option string) (env : Env) : bool * Storage.StorageService :=
  match txHash with
  | Some (String c h) =>
      (verifyEthereumTransaction env (String c h) payment, storageService ps)
  | _ => checkPaymentAddresses env (storageService ps) payment
  end.

(** [retryVerification(payment, txHash)].  Both external checks catch their
    own errors, so the [catch] of this method has nothing to handle. *)
Definition retryVerification (ps : PaymentService) (ref : string)
  (payment : PaymentDetails) (txHash : option string) (env : Env)
  : bool * PaymentService :=
  if attemptsOf ps (orderId payment) >=? maxAttempts (retryConfig ps)
  then (false, handleMaxRetriesExceeded ps ref payment)
  else
    let '(isValid, s) := externalCheck ps payment txHash env in
    let ps1 := withStorage ps s in
    if isValid
    then (true, handleSuccessfulPayment ps1 ref payment)
    else (false, handleFailedVerification ps1 payment (now env)).

(** The [try] block of [verifyPayment]. *)
Definition verifyPaymentTry (ps : PaymentService) (oid : string)
  (txHash : option string) (env : Env) : result (bool * PaymentService) :=
  match payments ps !! oid with
  | None => Throw (String.append "Payment not found: " oid)
  | Some payment =>
      if hasPaymentExpired ps payment (now env)
      then Ok (false, handleExpiredPayment ps oid payment)
      else Ok (retryVerification ps oid payment txHash env)
  end.

(** [verifyPayment(orderId, txHash?)]: the [try] block, and the [catch]
    that records the error and answers [false]. *)
Definition verifyPayment (ps : PaymentService) (oid : string)
  (txHash : option string) (env : Env) : bool * PaymentService :=
  match verifyPaymentTry ps oid txHash env with
  | Ok answer => answer
  | Throw message => (false, handlePaymentError ps oid message (now env))
  end.

Definition statusName (st : PaymentStatus) : string :=
  match st with
  | pending => "pending"
  | completed => "completed"
  | failed => "failed"
  end.

(** [getPaymentStatus(orderId)] *)
Definition getPaymentStatus (ps : PaymentService) (oid : string) : string :=
  match payments ps !! oid with
  | Some payment => statusName (status payment)
  | None => "not_found"
  end.

(** [retryFailedPayment(orderId)] *)
Definition retryFailedPayment (ps : PaymentService) (oid : string) (env : Env)
  : bool * PaymentService :=
  match failedPayments ps !! oid with
  | None => (false, ps)
  | Some failedPayment =>
      let reset := {| failedOrderId := failedOrderId failedPayment;
                      error := error failedPayment;
                      attempts := 0;
                      lastAttempt := lastAttempt failedPayment |} in
      verifyPayment (withFailedPayments ps (<[oid := reset]> (failedPayments ps)))
        oid None env
  end.

(** The calls a client of the ledger can make. *)
Inductive Call : Type :=
| Create (user tweet : string)
| Verify (oid : string) (txHash : option string)
| Retry (oid : string).

Definition perform (ps : PaymentService) (c : Call) (env : Env) : PaymentService :=
  match c with
  | Create user tweet => snd (createPaymentRequest ps user tweet (now env))
  | Verify oid txHash => snd (verifyPayment ps oid txHash env)
  | Retry oid => snd (retryFailedPayment ps oid env)
  end.

Definition performAll (ps : PaymentService) (cs : list (Call * Env))
  : PaymentService :=
  foldl (fun acc ce => perform acc (fst ce) (snd ce)) ps cs.

(** Every payment of the ledger is filed under its own order id, and every
    failure record under the order id it names. *)
Definition filedUnderOwnId (ps : PaymentService) : Prop :=
  map_Forall (fun oid payment => orderId payment = oid) (payments ps)
  /\ map_Forall (fun oid failedPayment => failedOrderId failedPayment = oid)
       (failedPayments ps).

(** The ledger and the request store agree: for every order id, the first
    stored request that carries it has the status the ledger has for it. *)
Definition inStep (ps : PaymentService) : Prop :=
  forall (oid : string) (i : nat) (k : string) (r : Storage.StoredRequest)
         (payment : PaymentDetails),
    Storage.firstMatch oid (Storage.requests (storageService ps)) = Some i ->
    Storage.requests (storageService ps) !! i = Some (k, r) ->
    payments ps !! oid = Some payment ->
    Storage.status (Storage.payment r) = status payment.

(** The status graph of the design document: [pending -> completed],
    [pending -> failed], [failed -> pending]. *)
Definition documentedMove (before after : PaymentStatus) : bool :=
  match before, after with
  | pending, completed => true
  | pending, failed => true
  | failed, pending => true
  | _, _ => false
  end.

End Payment.

(** ** RecoverySystem  (src/utils/recovery.ts) *)

Module Recovery.

Inductive Level : Set := info | error.

Record RecoverySystem : Type := {
  storageService : Storage.StorageService;
  lastCheckpoint : Z;
  log : list (Level * string)
}.

(** How a method call ends for its caller. *)
Inductive Completion : Type :=
| Returned
| Thrown (message : string).

Definition checkpointKey : string := "system_checkpoint".

(** [new RecoverySystem(storageService)] at time [now]. *)
Definition create (s : Storage.StorageService) (now : Z) : RecoverySystem :=
  {| storageService := s; lastCheckpoint := now; log := [] |}.

Definition logged (r : RecoverySystem) (lvl : Level) (message : string)
  : RecoverySystem :=
  {| storageService := storageService r; lastCheckpoint := lastCheckpoint r;
     log := log r ++ [(lvl, message)] |}.

Definition withStorage (r : RecoverySystem) (s : Storage.StorageService)
  : RecoverySystem :=
  {| storageService := s; lastCheckpoint := lastCheckpoint r; log := log r |}.

(** The [try] block of [saveCheckpoint] at time [now]. *)
Definition saveCheckpointTry (r : RecoverySystem) (now : Z) : result RecoverySystem :=
  match Storage.getPendingRequests (storageService r) with
  | Throw message => Throw message
  | Ok requests =>
      match Storage.getPendingPayments (storageService r) with
      | Throw message => Throw message
      | Ok payments =>
          let state :=
            {| Storage.stateTimestamp := now;
               Storage.pendingRequests := requests;
               Storage.pendingPayments := payments;
               Storage.activeServices := ["twitter"; "music"; "payment"] |} in
          match Storage.setValue (storageService r) checkpointKey
                  (Storage.StateText state) with
          | Throw message => Throw message
          | Ok s =>
              Ok (logged {| storageService := s;
                            lastCheckpoint := Storage.stateTimestamp state;
                            log := log r |}
                         info "Checkpoint saved successfully")
          end
      end
  end.

(** [saveCheckpoint()]: the handler logs and does not re-throw. *)
Definition saveCheckpoint (r : RecoverySystem) (now : Z)
  : RecoverySystem * Completion :=
  match saveCheckpointTry r now with
  | Ok r' => (r', Returned)
  | Throw _ => (logged r error "Failed to save checkpoint:", Returned)
  end.

(** What the two loops of [recoverFromLastCheckpoint] read of the value
    that [JSON.parse] hands back: its members [pendingRequests] and
    [pendingPayments].  [None] stands for a member that cannot be iterated
    over, the parsed value being [null] or having no such array: the
    [for ... of] throws a [TypeError].  An item of an array is an object
    with the members the handlers pass on, or [None], which stands for
    [null]. *)
Record ParsedState : Type := {
  requestItems : option (list (option Storage.StoredRequest));
  paymentItems : option (list (option Storage.Payment))
}.

(** [!checkpointData] is false: the value is there and is not the empty
    string.  A number spelt out and the text of an object are never empty. *)
Definition truthy (stored : option Storage.Text) : option Storage.Text :=
  match stored with
  | Some (Storage.OtherText EmptyString) => None
  | other => other
  end.

(** [recoverRequest(request)] *)
Definition recoverRequest (r : RecoverySystem) (request : option Storage.StoredRequest)
  : RecoverySystem :=
  match Storage.storeRequest (storageService r) request with
  | Ok s => logged (withStorage r s) info "Recovered request:"
  | Throw _ => logged r error "Failed to recover request:"
  end.

(** [recoverPayment(payment)]; reading [orderId] from [null] throws inside
    the [try]. *)
Definition recoverPayment (r : RecoverySystem) (p : option Storage.Payment)
  : RecoverySystem :=
  match p with
  | Some payment =>
      logged (withStorage r
                (Storage.updatePaymentStatus (storageService r)
                   (Storage.orderId payment) (Storage.status payment)))
             info "Recovered payment:"
  | None => logged r error "Failed to recover payment:"
  end.

(** The two [for ... of] loops of [recoverFromLastCheckpoint], on arrays
    that are there. *)
Definition replay (r : RecoverySystem)
  (requests : list (option Storage.StoredRequest))
  (payments : list (option Storage.Payment)) : RecoverySystem :=
  foldl recoverPayment (foldl recoverRequest r requests) payments.

(** The [try] block of [recoverFromLastCheckpoint]: the system as the block
    leaves it, and how the block ends.  [parse] is [JSON.parse], an input of
    the model: nothing is assumed about what it makes of a text.  What was
    recovered before a throw stays recovered. *)
Definition recoverTry (parse : Storage.Text -> result ParsedState)
  (r : RecoverySystem) : RecoverySystem * Completion :=
  match Storage.getValue (storageService r) checkpointKey with
  | Throw message => (r, Thrown message)
  | Ok stored =>
      match truthy stored with
      | None => (logged r info "No checkpoint found for recovery", Returned)
      | Some checkpointData =>
          match parse checkpointData with
          | Throw message => (r, Thrown message)
          | Ok state =>
              match requestItems state with
              | None =>
                  (r, Thrown "TypeError: state.pendingRequests is not iterable")
              | Some requests =>
                  match paymentItems state with
                  | None =>
                      (foldl recoverRequest r requests,
                       Thrown "TypeError: state.pendingPayments is not iterable")
                  | Some payments =>
                      (logged (replay r requests payments)
                              info "Recovery completed successfully",
                       Returned)
                  end
              end
          end
      end
  end.

(** [recoverFromLastCheckpoint()]: the handler logs and re-throws. *)
Definition recoverFromLastCheckpoint (parse : Storage.Text -> result ParsedState)
  (r : RecoverySystem) : RecoverySystem * Completion :=
  match recoverTry parse r with
  | (r', Returned) => (r', Returned)
  | (r', Thrown message) =>
      (logged r' error "Failed to recover from checkpoint:", Thrown message)
  end.

(** A restart of the process at time [now]: a new, empty request store on
    a service of the same kind, over the same key-value storage, and a new
    recovery system on it. *)
Definition restart (r : RecoverySystem) (now : Z) : RecoverySystem :=
  create (Storage.create (Storage.cells (storageService r))
                         (Storage.reachable (storageService r))) now.

(** Save a checkpoint at [t1], restart at [t2], recover. *)
Definition roundTrip (parse : Storage.Text -> result ParsedState)
  (s : Storage.StorageService) (t0 t1 t2 : Z) : RecoverySystem * Completion :=
  recoverFromLastCheckpoint parse
    (restart (fst (saveCheckpoint (create s t0) t1)) t2).

(** The correlation ids of a store with the status of each one's payment,
    in iteration order. *)
Definition statuses (s : Storage.StorageService) : list (string * PaymentStatus) :=
  map (fun kr => (fst kr, Storage.status (Storage.payment (snd kr))))
      (Storage.requests s).


End Recovery.

(** ** Sample data *)

Module Samples.

Definition noWallets : Storage.WalletAddresses :=
  {| Storage.btc := "bc1-bot"; Storage.eth := "0xB07";
     Storage.sol := "So1-bot"; Storage.usdt := "T-bot" |}.

Definition request (tweet user order : string) (st : PaymentStatus) (at_ : Z)
  : Storage.StoredRequest :=
  {| Storage.tweetId := tweet;
     Storage.userId := user;
     Storage.prompt := "lofi beats with piano";
     Storage.payment := {| Storage.orderId := order;
                           Storage.status := st;
                           Storage.amount := 10;
                           Storage.walletAddresses := noWallets |};
     Storage.timestamp := at_ |}.

(** A store with three requests; the second and third carry the same
    order id. *)
Definition store3 : Storage.StorageService :=
  {| Storage.requests :=
       [("t1", request "t1" "alice" "PAY-1" pending 100);
        ("t2", request "t2" "bob" "PAY-2" pending 200);
        ("t3", request "t3" "carol" "PAY-2" completed 300)];
     Storage.cells := ∅;
     Storage.reachable := true |}.

(** The storage service of the repository, holding two pending requests
    and one whose payment is completed. *)
Definition storeMixed : Storage.StorageService :=
  {| Storage.requests :=
       [("t1", request "t1" "alice" "PAY-1" pending 100);
        ("t2", request "t2" "bob" "PAY-2" completed 200);
        ("t3", request "t3" "carol" "PAY-3" pending 300)];
     Storage.cells := ∅;
     Storage.reachable := false |}.

(** A limiter with a ceiling of three requests per hour. *)
Definition limiter3 : Limiter.RateLimiter := Limiter.create (Some 3).

(** Operations that always reject and that always resolve. *)
Definition alwaysFails : nat -> bool := fun _ => false.
Definition succeeds : nat -> bool := fun _ => true.

(** [addTask('A', ...)], [addTask('B', ...)], [addTask('C', ...)] on a new
    queue manager. *)
Definition queueABC : Queue.QueueManager :=
  Queue.push (Queue.push (Queue.push Queue.create "A" alwaysFails)
                         "B" succeeds) "C" succeeds.

(** A new ledger on an empty store whose key-value storage answers. *)
Definition ledger0 : Payment.PaymentService :=
  Payment.create (Storage.create ∅ true) noWallets.

(** The outside world at time [t]: the wallet holds [balance] ether and no
    transaction is known under any hash. *)
Definition envAt (t : Z) (balance : Q) : Payment.Env :=
  {| Payment.now := t;
     Payment.getTransaction := fun _ => Ok None;
     Payment.getBalance := fun _ => Ok balance |}.

(** A payment request made at time 1000, and three checks that find no
    money on the wallet. *)
Definition order1 : string := "PAY-1000-1234".

Definition threeFailures : list (Payment.Call * Payment.Env) :=
  [(Payment.Create "user1234" "t1", envAt 1000 0);
   (Payment.Verify order1 None, envAt 2000 0);
   (Payment.Verify order1 None, envAt 3000 0);
   (Payment.Verify order1 None, envAt 4000 0)].

(** The ledger right after the payment request of [threeFailures]. *)
Definition ledger1 : Payment.PaymentService :=
  Payment.performAll ledger0 [(Payment.Create "user1234" "t1", envAt 1000 0)].

(** The outside world at time [t] when the expected 0.005 ether were sent
    to the wallet in the transaction "0xabc". *)
Definition envPaid (t : Z) : Payment.Env :=
  {| Payment.now := t;
     Payment.getTransaction :=
       fun h => if decide (h = "0xabc")
                then Ok (Some {| Payment.to := Some "0xb07";
                                 Payment.value := 5 # 1000 |})
                else Ok None;
     Payment.getBalance := fun _ => Ok 1%Q |}.

(** The ledger after the three failed checks, and after a fourth call. *)
Definition ledger3 : Payment.PaymentService :=
  Payment.performAll ledger0 threeFailures.

Definition ledger4 : Payment.PaymentService :=
  Payment.perform ledger3 (Payment.Verify order1 None) (envAt 5000 0).

(** A parsed checkpoint whose arrays hold a [null] next to proper items,
    and one that has lost its [pendingPayments]. *)
Definition holedState : Recovery.ParsedState :=
  {| Recovery.requestItems :=
       Some [None; Some (request "t1" "alice" "PAY-1" pending 100); None;
             Some (request "t2" "bob" "PAY-2" pending 200)];
     Recovery.paymentItems :=
       Some [None; Some (Storage.payment (request "t2" "bob" "PAY-2" failed 200))] |}.

Definition halfState : Recovery.ParsedState :=
  {| Recovery.requestItems :=
       Some [Some (request "t1" "alice" "PAY-1" pending 100)];
     Recovery.paymentItems := None |}.

(** A [JSON.parse] for three texts: one that spells [holedState], one that
    spells [halfState], and, for the rest, text that is no JSON. *)
Definition parseSample (data : Storage.Text) : result Recovery.ParsedState :=
  match data with
  | Storage.OtherText "holed" => Ok holedState
  | Storage.OtherText "half" => Ok halfState
  | _ => Throw "SyntaxError: unexpected token in JSON"
  end.







(** A new ledger on the storage service of the repository, a payment
    request made on it at time 1000, and the ledger after three balance
    checks and a fourth call. *)
Definition ledgerRepo0 : Payment.PaymentService :=
  Payment.create (Storage.create ∅ false) noWallets.

Definition ledgerRepo1 : Payment.PaymentService :=
  Payment.performAll ledgerRepo0 [(Payment.Create "user1234" "t1", envAt 1000 1)].

Definition ledgerRepo4 : Payment.PaymentService :=
  Payment.performAll ledgerRepo0
    [(Payment.Create "user1234" "t1", envAt 1000 1);
     (Payment.Verify order1 None, envAt 2000 1);
     (Payment.Verify order1 None, envAt 3000 1);
     (Payment.Verify order1 None, envAt 4000 1);
     (Payment.Verify order1 None, envAt 5000 1)].

(** A ledger with two payment requests, made one millisecond apart by two
    users, for the same wallet and amount. *)
Definition order2 : string := "PAY-1001-5678".

Definition ledgerTwo : Payment.PaymentService :=
  Payment.performAll ledger0
    [(Payment.Create "user1234" "t1", envAt 1000 0);
     (Payment.Create "user5678" "t2", envAt 1001 0)].

(** The same ledger on a request store that holds the two requests. *)
Definition ledgerStored : Payment.PaymentService :=
  Payment.withStorage ledgerTwo
    {| Storage.requests :=
         [("t1", request "t1" "user1234" order1 pending 1000);
          ("t2", request "t2" "user5678" order2 pending 1001)];
       Storage.cells := ∅;
       Storage.reachable := true |}.

(** The limiter with ceiling 3 after three requests of one user. *)
Definition limiterFull : Limiter.RateLimiter :=
  Limiter.checkAll limiter3 [("alice", 1000); ("alice", 2000); ("alice", 3000)].

End Samples.

(** * Properties *)

(** ** The insertion-ordered map *)

Section JsMapFacts.
Context {V : Type}.
Implicit Types (k : string) (v : V) (m : list (string * V)).

Lemma get_set_eq k v m : JsMap.get k (JsMap.set k v m) = Some v.
Proof.
  induction m as [|[k' v'] rest IH]; simpl.
  - by rewrite decide_True.
  - destruct (decide (k' = k)) as [->|Hne]; simpl.
    + by rewrite decide_True.
    + by rewrite decide_False.
Qed.

Lemma get_set_ne k k' v m :
  k ≠ k' -> JsMap.get k' (JsMap.set k v m) = JsMap.get k' m.
Proof.
  intros Hne. induction m as [|[k0 v0] rest IH]; simpl.
  - by rewrite decide_False.
  - destruct (decide (k0 = k)) as [->|Hk]; simpl.
    + by rewrite !decide_False.
    + destruct (decide (k0 = k')); [done | apply IH].
Qed.

(** Setting a key that is absent appends the binding. *)
Lemma set_fresh k v m : k ∉ JsMap.keys m -> JsMap.set k v m = m ++ [(k, v)].
Proof.
  induction m as [|[k' v'] rest IH]; simpl; [done|].
  rewrite not_elem_of_cons. intros [Hne Hnotin].
  rewrite decide_False by congruence. by rewrite IH.
Qed.

(** Setting a key to the value it already has changes nothing. *)
Lemma set_same k v m : JsMap.get k m = Some v -> JsMap.set k v m = m.
Proof.
  induction m as [|[k' v'] rest IH]; simpl; [done|].
  destruct (decide (k' = k)) as [->|Hne].
  - by intros [= ->].
  - intros Hget. by rewrite IH.
Qed.

(** With distinct keys, the binding at any position is the one [get] finds. *)
Lemma get_at_position k v m (i : nat) :
  NoDup (JsMap.keys m) -> m !! i = Some (k, v) -> JsMap.get k m = Some v.
Proof.
  revert i. induction m as [|[k' v'] rest IH]; intros i Hnd Hi; [done|].
  simpl in Hnd. apply NoDup_cons in Hnd as [Hnotin Hnd].
  destruct i as [|i]; simpl in *.
  - injection Hi as -> ->. by rewrite decide_True.
  - destruct (decide (k' = k)) as [->|Hne].
    + exfalso. apply Hnotin. unfold JsMap.keys.
      apply list_elem_of_fmap. exists (k, v). split; [done|].
      by eapply list_elem_of_lookup_2.
    + by eapply IH.
Qed.

Lemma keys_insert_same_key k v m (i : nat) v0 :
  m !! i = Some (k, v0) -> JsMap.keys (<[i := (k, v)]> m) = JsMap.keys m.
Proof.
  intros Hi. unfold JsMap.keys. rewrite list_fmap_insert. simpl.
  apply list_insert_id. by rewrite list_lookup_fmap, Hi.
Qed.

End JsMapFacts.

(** ** The request store *)

Section StorageFacts.
Import Storage.
Implicit Types (s : StorageService) (m : list (string * StoredRequest)).

Lemma firstMatch_None oid m :
  firstMatch oid m = None <->
  Forall (fun kr => orderId (payment (snd kr)) ≠ oid) m.
Proof.
  induction m as [|[k r] rest IH]; simpl.
  - split; [constructor | done].
  - destruct (decide (orderId (payment r) = oid)) as [Heq|Hne].
    + split; [done|]. intros H. apply Forall_cons in H as [H _]. done.
    + rewrite fmap_None, IH. split.
      * intros H. by constructor.
      * intros H. by apply Forall_cons in H as [_ H].
Qed.

Lemma firstMatch_Some oid m (i : nat) :
  firstMatch oid m = Some i ->
  exists k r, m !! i = Some (k, r) /\ orderId (payment r) = oid /\
    forall (j : nat) kr, (j < i)%nat -> m !! j = Some kr ->
                         orderId (payment (snd kr)) ≠ oid.
Proof.
  revert i. induction m as [|[k r] rest IH]; intros i; simpl; [done|].
  destruct (decide (orderId (payment r) = oid)) as [Heq|Hne].
  - intros [= <-]. exists k, r. repeat split; [done|]. intros j kr Hj. lia.
  - intros Hi. apply fmap_Some in Hi as (i' & Hi' & ->).
    destruct (IH i' Hi') as (k' & r' & Hlook & Hoid & Hbefore).
    exists k', r'. repeat split; [done..|].
    intros [|j] kr Hj Hkr; simpl in Hkr.
    + by injection Hkr as <-.
    + eapply Hbefore; [|done]. lia.
Qed.

(** What the loop of [updatePaymentStatus] does to the map. *)
Lemma assignFirst_firstMatch oid st m :
  assignFirst oid st m =
  match firstMatch oid m with
  | None => None
  | Some i =>
      match m !! i with
      | Some (k, r) => Some (<[i := (k, withStatus st r)]> m, withStatus st r)
      | None => None
      end
  end.
Proof.
  induction m as [|[k r] rest IH]; simpl; [done|].
  destruct (decide (orderId (payment r) = oid)); [done|].
  rewrite IH. destruct (firstMatch oid rest) as [i|]; simpl; [|done].
  by destruct (rest !! i) as [[k' r']|].
Qed.

Lemma wellKeyed_insert_status m (i : nat) k r st :
  wellKeyed m -> m !! i = Some (k, r) ->
  wellKeyed (<[i := (k, withStatus st r)]> m).
Proof.
  intros [Hkeys Hnd] Hi. split.
  - apply Forall_insert; [done|]. simpl.
    by apply (Forall_lookup_1 _ _ _ _ Hkeys Hi).
  - by erewrite keys_insert_same_key.
Qed.

(** On a well-keyed store, [updatePaymentStatus] is an in-place update. *)
Lemma updatePaymentStatus_requests s oid st :
  wellKeyed (requests s) ->
  requests (updatePaymentStatus s oid st) =
  match firstMatch oid (requests s) with
  | None => requests s
  | Some i =>
      match requests s !! i with
      | Some (k, r) => <[i := (k, withStatus st r)]> (requests s)
      | None => requests s
      end
  end.
Proof.
  intros Hwf. unfold updatePaymentStatus. rewrite assignFirst_firstMatch.
  destruct (firstMatch oid (requests s)) as [i|] eqn:Hfirst; [|done].
  destruct (requests s !! i) as [[k r]|] eqn:Hi; [|done].
  simpl. apply set_same.
  pose proof (wellKeyed_insert_status _ _ _ _ st Hwf Hi) as [Hkeys Hnd].
  assert (Hlen : (i < length (requests s))%nat) by by eapply lookup_lt_Some.
  assert (k = tweetId r) as ->.
  { destruct Hwf as [Hk _]. by apply (Forall_lookup_1 _ _ _ _ Hk Hi). }
  change (tweetId (withStatus st r)) with (tweetId r).
  eapply get_at_position; [done|]. by apply list_lookup_insert_eq.
Qed.

Lemma storeRequest_wellKeyed s r s' :
  wellKeyed (requests s) -> storeRequest s (Some r) = Ok s' ->
  wellKeyed (requests s').
Proof.
  intros [Hkeys Hnd] [= <-]. simpl.
  destruct (decide (tweetId r ∈ JsMap.keys (requests s))) as [Hin|Hnotin].
  - apply list_elem_of_fmap in Hin as ([k r0] & Hk & Hin). simpl in Hk. subst k.
    apply list_elem_of_lookup in Hin as [i Hi].
    assert (JsMap.set (tweetId r) r (requests s)
            = <[i := (tweetId r, r)]> (requests s)) as ->.
    { clear Hkeys. revert i Hi Hnd.
      induction (requests s) as [|[k' v'] rest IH]; intros i Hi Hnd; [done|].
      simpl in Hnd. apply NoDup_cons in Hnd as [Hnotin Hnd].
      destruct i as [|i]; simpl in *.
      - injection Hi as -> ->. by rewrite decide_True.
      - rewrite decide_False.
        + f_equal. by apply IH.
        + intros ->. apply Hnotin. apply list_elem_of_fmap.
          exists (tweetId r, r0). split; [done|]. by eapply list_elem_of_lookup_2. }
    split.
    + by apply Forall_insert.
    + by erewrite keys_insert_same_key.
  - rewrite set_fresh by done. split.
    + apply Forall_app. split; [done|]. by repeat constructor.
    + unfold JsMap.keys. rewrite fmap_app. simpl.
      apply NoDup_app. repeat split; [done| |apply NoDup_singleton].
      intros k Hk Hk'. apply list_elem_of_singleton in Hk'. by subst.
Qed.

(** The invariant holds in a new store and is kept by both mutators. *)
Lemma create_wellKeyed kv (up : bool) : wellKeyed (requests (Storage.create kv up)).
Proof. split; [constructor | apply NoDup_nil_2]. Qed.

Lemma updatePaymentStatus_wellKeyed s oid st :
  wellKeyed (requests s) -> wellKeyed (requests (updatePaymentStatus s oid st)).
Proof.
  intros Hwf. rewrite (updatePaymentStatus_requests s oid st Hwf).
  destruct (firstMatch oid (requests s)) as [i|]; [|done].
  destruct (requests s !! i) as [[k r]|] eqn:Hi; [|done].
  by apply wellKeyed_insert_status.
Qed.

End StorageFacts.

Section UpdatePaymentStatus.
Import Storage.

(** C10. On a store in which every request is filed under its own tweet id,
    [updatePaymentStatus orderId status] leaves the store as it is when no
    request carries [orderId]; otherwise it assigns [status] to the payment
    of the first request, in insertion order, that carries [orderId], and
    changes nothing else: every other position of the map, the key of the
    request, its other members, the other members of its payment and the
    rest of the service are as before.  The method has no failing path. *)
Theorem updatePaymentStatus_first_match_only
  (s : StorageService) (oid : string) (st : PaymentStatus) :
  wellKeyed (requests s) ->
  (Forall (fun kr => orderId (payment (snd kr)) ≠ oid) (requests s)
   /\ updatePaymentStatus s oid st = s)
  \/
  (exists (i : nat) k r r',
     requests s !! i = Some (k, r)
     /\ orderId (payment r) = oid
     /\ (forall (j : nat) kr, (j < i)%nat -> requests s !! j = Some kr ->
                              orderId (payment (snd kr)) ≠ oid)
     /\ requests (updatePaymentStatus s oid st) = <[i := (k, r')]> (requests s)
     /\ (forall j : nat, j ≠ i ->
           requests (updatePaymentStatus s oid st) !! j = requests s !! j)
     /\ status (payment r') = st
     /\ orderId (payment r') = orderId (payment r)
     /\ amount (payment r') = amount (payment r)
     /\ walletAddresses (payment r') = walletAddresses (payment r)
     /\ tweetId r' = tweetId r
     /\ userId r' = userId r
     /\ prompt r' = prompt r
     /\ timestamp r' = timestamp r
     /\ cells (updatePaymentStatus s oid st) = cells s
     /\ reachable (updatePaymentStatus s oid st) = reachable s).
Proof.
  intros Hwf.
  pose proof (updatePaymentStatus_requests s oid st Hwf) as Hreq.
  destruct (firstMatch oid (requests s)) as [i|] eqn:Hfirst.
  - right. destruct (firstMatch_Some _ _ _ Hfirst) as (k & r & Hi & Hoid & Hbefore).
    rewrite Hi in Hreq. exists i, k, r, (withStatus st r).
    repeat split; try done.
    + intros j Hj. rewrite Hreq. by apply list_lookup_insert_ne.
    + unfold updatePaymentStatus. by destruct (assignFirst _ _ _) as [[??]|].
    + unfold updatePaymentStatus. by destruct (assignFirst _ _ _) as [[??]|].
  - left. split; [by apply firstMatch_None|].
    unfold updatePaymentStatus. rewrite assignFirst_firstMatch. by rewrite Hfirst.
Qed.

Lemma store3_wellKeyed : wellKeyed (requests Samples.store3).
Proof.
  split.
  - by repeat constructor.
  - exact (bool_decide_unpack (NoDup ["t1"; "t2"; "t3"]) I).
Defined.

Lemma updatePaymentStatus_first_match_only_witness :
  wellKeyed (requests Samples.store3)
  /\ ((Forall (fun kr => orderId (payment (snd kr)) ≠ "PAY-2")
              (requests Samples.store3)
       /\ updatePaymentStatus Samples.store3 "PAY-2" failed = Samples.store3)
      \/
      (exists (i : nat) k r r',
         requests Samples.store3 !! i = Some (k, r)
         /\ orderId (payment r) = "PAY-2"
         /\ (forall (j : nat) kr, (j < i)%nat ->
                requests Samples.store3 !! j = Some kr ->
                orderId (payment (snd kr)) ≠ "PAY-2")
         /\ requests (updatePaymentStatus Samples.store3 "PAY-2" failed)
            = <[i := (k, r')]> (requests Samples.store3)
         /\ (forall j : nat, j ≠ i ->
               requests (updatePaymentStatus Samples.store3 "PAY-2" failed) !! j
               = requests Samples.store3 !! j)
         /\ status (payment r') = failed
         /\ orderId (payment r') = orderId (payment r)
         /\ amount (payment r') = amount (payment r)
         /\ walletAddresses (payment r') = walletAddresses (payment r)
         /\ tweetId r' = tweetId r
         /\ userId r' = userId r
         /\ prompt r' = prompt r
         /\ timestamp r' = timestamp r
         /\ cells (updatePaymentStatus Samples.store3 "PAY-2" failed)
            = cells Samples.store3
         /\ reachable (updatePaymentStatus Samples.store3 "PAY-2" failed)
            = reachable Samples.store3)).
Proof.
  split; [exact store3_wellKeyed|].
  exact (updatePaymentStatus_first_match_only
           Samples.store3 "PAY-2" failed store3_wellKeyed).
Defined.

(** The sample store after the update: only the second request changed. *)
Example updatePaymentStatus_store3 :
  Recovery.statuses (updatePaymentStatus Samples.store3 "PAY-2" failed)
  = [("t1", pending); ("t2", failed); ("t3", completed)].
Proof. reflexivity. Qed.

End UpdatePaymentStatus.

(** ** The rate limiter *)

Section RateLimiterFacts.
Import Limiter.
Implicit Types (rl : RateLimiter) (userId : string) (now : Z).

(** A call without a live window opens one. *)
Lemma checkLimit_fresh rl userId now :
  windowless rl userId now ->
  checkLimit rl userId now
  = (true, withLimit rl userId {| count := 1; resetTime := now + ONE_HOUR |}).
Proof.
  unfold windowless, checkLimit. destruct (limits rl !! userId) as [l|]; [|done].
  intros Hover. by rewrite (proj2 (Z.gtb_gt _ _)) by lia.
Qed.

(** A call of one user leaves the windows of the others alone. *)
Lemma checkLimit_other rl userId other now :
  userId ≠ other ->
  limits (snd (checkLimit rl userId now)) !! other = limits rl !! other.
Proof.
  intros Hne. unfold checkLimit.
  destruct (limits rl !! userId) as [l|]; simpl.
  - destruct (now >? resetTime l); simpl; [by rewrite lookup_insert_ne|].
    destruct (count l >=? maxRequestsPerHour rl); simpl; [done|].
    by rewrite lookup_insert_ne.
  - by rewrite lookup_insert_ne.
Qed.

Lemma checkLimit_ceiling rl userId now :
  maxRequestsPerHour (snd (checkLimit rl userId now)) = maxRequestsPerHour rl.
Proof.
  unfold checkLimit. destruct (limits rl !! userId) as [l|]; simpl; [|done].
  destruct (now >? resetTime l); simpl; [done|].
  by destruct (count l >=? maxRequestsPerHour rl).
Qed.

(** Inside a window that has counted [c] requests, the call number [n]
    (from 0) is allowed exactly when [c + n] is below the ceiling. *)
Lemma checkLimits_in_window (times : list Z) rl userId c reset :
  limits rl !! userId = Some {| count := c; resetTime := reset |} ->
  Forall (fun t => t <= reset) times ->
  forall (n : nat) (b : bool),
    fst (checkLimits rl userId times) !! n = Some b ->
    b = bool_decide (c + Z.of_nat n < maxRequestsPerHour rl).
Proof.
  revert rl c. induction times as [|t later IH]; intros rl c Hwin Htimes n b; [done|].
  apply Forall_cons in Htimes as [Ht Hlater]. simpl.
  destruct (checkLimit rl userId t) as [allowed rl1] eqn:Hcall.
  destruct (checkLimits rl1 userId later) as [answers rl2] eqn:Hrest. simpl.
  unfold checkLimit in Hcall. rewrite Hwin in Hcall. simpl in Hcall.
  assert ((reset <? t) = false) as Hin by (apply Z.ltb_ge; lia).
  rewrite Z.gtb_ltb in Hcall. rewrite Hin in Hcall.
  destruct (c >=? maxRequestsPerHour rl) eqn:Hfull.
  - injection Hcall as <- <-.
    assert (maxRequestsPerHour rl <= c) by (apply Z.geb_le in Hfull; lia).
    destruct n as [|n]; simpl.
    + intros [= <-]. symmetry. apply bool_decide_eq_false. lia.
    + intros Hn. specialize (IH rl c Hwin Hlater n b).
      rewrite Hrest in IH. rewrite (IH Hn).
      rewrite !bool_decide_eq_false_2 by lia. done.
  - injection Hcall as <- <-.
    assert (c < maxRequestsPerHour rl).
    { rewrite Z.geb_leb in Hfull. apply Z.leb_gt in Hfull. lia. }
    destruct n as [|n]; simpl.
    + intros [= <-]. symmetry. apply bool_decide_eq_true. lia.
    + intros Hn.
      specialize (IH (withLimit rl userId {| count := c + 1; resetTime := reset |})
                     (c + 1)).
      rewrite Hrest in IH. simpl in IH. rewrite lookup_insert_eq in IH.
      rewrite (IH eq_refl Hlater n b Hn).
      apply bool_decide_ext. lia.
Qed.

(** C4. A call for a user that has no window, or whose window is over,
    opens a window with [count = 1] and [resetTime = now + 1 hour] and is
    allowed.  Counting from that call and as long as the clock is not past
    the window's [resetTime], call number [k] is allowed exactly when [k] is
    at most the ceiling: the ceiling-th call is still allowed and the call
    after it is refused. *)
Theorem checkLimit_window rl userId (t0 : Z) (later : list Z) :
  1 <= maxRequestsPerHour rl ->
  windowless rl userId t0 ->
  Forall (fun t => t <= t0 + ONE_HOUR) later ->
  checkLimit rl userId t0
  = (true, withLimit rl userId {| count := 1; resetTime := t0 + ONE_HOUR |})
  /\ (forall (k : nat) (b : bool),
        (1 <= k)%nat ->
        fst (checkLimits rl userId (t0 :: later)) !! (k - 1)%nat = Some b ->
        b = bool_decide (Z.of_nat k <= maxRequestsPerHour rl))
  /\ (forall (k : nat) (b : bool),
        Z.of_nat k = maxRequestsPerHour rl ->
        fst (checkLimits rl userId (t0 :: later)) !! (k - 1)%nat = Some b ->
        b = true)
  /\ (forall (k : nat) (b : bool),
        Z.of_nat k = maxRequestsPerHour rl + 1 ->
        fst (checkLimits rl userId (t0 :: later)) !! (k - 1)%nat = Some b ->
        b = false).
Proof.
  intros Hceiling Hfresh Hlater.
  pose proof (checkLimit_fresh rl userId t0 Hfresh) as Hfirst.
  assert (Hall : forall (k : nat) (b : bool),
            (1 <= k)%nat ->
            fst (checkLimits rl userId (t0 :: later)) !! (k - 1)%nat = Some b ->
            b = bool_decide (Z.of_nat k <= maxRequestsPerHour rl)).
  { intros k b Hk. simpl. rewrite Hfirst.
    destruct (checkLimits _ userId later) as [answers rl2] eqn:Hrest. simpl.
    destruct k as [|[|k]]; [lia| |]; simpl.
    - intros [= <-]. symmetry. apply bool_decide_eq_true. lia.
    - intros Hb.
      pose proof (checkLimits_in_window later
                    (withLimit rl userId {| count := 1; resetTime := t0 + ONE_HOUR |})
                    userId 1 (t0 + ONE_HOUR)) as Hwin.
      rewrite Hrest in Hwin. simpl in Hwin. rewrite lookup_insert_eq in Hwin.
      rewrite (Hwin eq_refl Hlater k b Hb). apply bool_decide_ext. lia. }
  split; [done|]. split; [done|]. split.
  - intros k b Hk Hb. rewrite (Hall k b) by (done || lia).
    apply bool_decide_eq_true. lia.
  - intros k b Hk Hb. rewrite (Hall k b) by (done || lia).
    apply bool_decide_eq_false. lia.
Qed.

Lemma checkLimit_window_witness :
  1 <= maxRequestsPerHour Samples.limiter3
  /\ windowless Samples.limiter3 "alice" 1000
  /\ Forall (fun t => t <= 1000 + ONE_HOUR) [2000; 3000; 3601000]
  /\ checkLimit Samples.limiter3 "alice" 1000
     = (true, withLimit Samples.limiter3 "alice"
                {| count := 1; resetTime := 1000 + ONE_HOUR |})
  /\ (forall (k : nat) (b : bool),
        (1 <= k)%nat ->
        fst (checkLimits Samples.limiter3 "alice" [1000; 2000; 3000; 3601000])
          !! (k - 1)%nat = Some b ->
        b = bool_decide (Z.of_nat k <= maxRequestsPerHour Samples.limiter3)).
Proof.
  assert (H1 : 1 <= maxRequestsPerHour Samples.limiter3) by (simpl; lia).
  assert (H2 : windowless Samples.limiter3 "alice" 1000) by exact I.
  assert (H3 : Forall (fun t => t <= 1000 + ONE_HOUR) [2000; 3000; 3601000]).
  { repeat constructor; unfold ONE_HOUR; lia. }
  split; [exact H1|]. split; [exact H2|]. split; [exact H3|].
  destruct (checkLimit_window Samples.limiter3 "alice" 1000
              [2000; 3000; 3601000] H1 H2 H3) as (Hfirst & Hall & _).
  split; [exact Hfirst | exact Hall].
Defined.

(** Three allowed calls, a refused one, another refused one at the very
    [resetTime], and a new window one millisecond later. *)
Example checkLimits_limiter3 :
  fst (checkLimits Samples.limiter3 "alice"
         [1000; 2000; 3000; 4000; 3601000; 3601001])
  = [true; true; true; false; false; true].
Proof. reflexivity. Qed.

End RateLimiterFacts.

(** ** The task queue *)

Section QueueFacts.
Import Queue.
Implicit Types (q : QueueManager) (t : QueueTask).

Lemma loop_empty (fuel : nat) q : queue q = [] -> loop fuel q = Some q.
Proof. intros H. destruct fuel; simpl; by rewrite H. Qed.

Lemma maxRetries_turn q : maxRetries (turn q) = maxRetries q.
Proof.
  unfold turn. destruct (queue q) as [|t rest]; [done|].
  destruct (task t (retries t)); [done|].
  by destruct (retries t <? maxRetries q)%nat.
Qed.

(** Every turn on a non-empty queue uses up some of the budget. *)
Lemma budget_turn q : queue q ≠ [] -> (budget (turn q) < budget q)%nat.
Proof.
  unfold budget. rewrite maxRetries_turn. unfold turn.
  destruct (queue q) as [|t rest]; [done|]. intros _.
  destruct (task t (retries t)); simpl.
  - unfold turnsLeft. lia.
  - destruct (retries t <? maxRetries q)%nat eqn:Hlt; simpl.
    + apply Nat.ltb_lt in Hlt. unfold turnsLeft. simpl. lia.
    + unfold turnsLeft. lia.
Qed.

(** The loop ends: with fuel for [budget q] turns it returns, and it
    returns an empty queue. *)
Lemma loop_terminates (fuel : nat) q :
  (budget q <= fuel)%nat -> exists q', loop fuel q = Some q' /\ queue q' = [].
Proof.
  revert q. induction fuel as [|fuel IH]; intros q Hfuel.
  - destruct (queue q) as [|t rest] eqn:Hq.
    + exists q. simpl. by rewrite Hq.
    + exfalso. unfold budget in Hfuel. rewrite Hq in Hfuel. simpl in Hfuel.
      unfold turnsLeft in Hfuel. lia.
  - destruct (queue q) as [|t rest] eqn:Hq.
    + exists q. simpl. by rewrite Hq.
    + simpl. rewrite Hq. apply IH.
      assert (queue q ≠ []) as Hne by (by rewrite Hq).
      pose proof (budget_turn q Hne). lia.
Qed.

(** More fuel does not change what the loop returns. *)
Lemma loop_more_fuel (fuel fuel' : nat) q q' :
  loop fuel q = Some q' -> (fuel <= fuel')%nat -> loop fuel' q = Some q'.
Proof.
  revert fuel' q. induction fuel as [|fuel IH]; intros fuel' q; simpl.
  - destruct (queue q) eqn:Hq; [|done]. intros [= <-] _. by apply loop_empty.
  - destruct (queue q) eqn:Hq.
    + intros [= <-] _. by apply loop_empty.
    + intros Hloop Hle. destruct fuel' as [|fuel']; [lia|].
      simpl. rewrite Hq. apply IH; [done | lia].
Qed.

(** [processQueue] returns whenever it has fuel for [budget q] turns. *)
Lemma processQueue_terminates (fuel : nat) q :
  (budget q <= fuel)%nat -> exists q', processQueue fuel q = Some q'.
Proof.
  intros Hfuel. unfold processQueue.
  destruct (processing q || bool_decide (queue q = [])); [by eexists|].
  destruct (loop_terminates fuel (withProcessing q true) Hfuel) as (q' & -> & _).
  by eexists.
Qed.

(** A task pushed while the loop is busy with a non-empty queue is seen by
    the loop exactly as if it had been pushed before the turn. *)
Lemma turn_push q taskId op :
  queue q ≠ [] -> turn (push q taskId op) = push (turn q) taskId op.
Proof.
  unfold turn, push, withQueue. simpl.
  destruct (queue q) as [|t rest]; [done|]. intros _. simpl.
  destruct (task t (retries t)); simpl.
  - by rewrite !app_nil_r.
  - destruct (retries t <? maxRetries q)%nat; simpl; by rewrite !app_nil_r.
Qed.

(** The three ways a turn of the loop can go. *)
Lemma loop_resolves (fuel : nat) q t rest :
  queue q = t :: rest ->
  task t (retries t) = true ->
  loop (S fuel) q = loop fuel (withQueue q rest [Called (id t) true]).
Proof. intros Hq Hok. simpl. rewrite Hq. unfold turn. by rewrite Hq, Hok. Qed.

Lemma loop_retries (fuel : nat) q t rest :
  queue q = t :: rest ->
  task t (retries t) = false ->
  (retries t < maxRetries q)%nat ->
  loop (S fuel) q
  = loop fuel (withQueue q (retried t :: rest)
                 [Called (id t) false; Retrying (id t) (S (retries t))]).
Proof.
  intros Hq Hfail Hlt. simpl. rewrite Hq. unfold turn. rewrite Hq, Hfail.
  by rewrite (proj2 (Nat.ltb_lt _ _) Hlt).
Qed.

Lemma loop_gives_up (fuel : nat) q t rest :
  queue q = t :: rest ->
  task t (retries t) = false ->
  (maxRetries q <= retries t)%nat ->
  loop (S fuel) q
  = loop fuel (withQueue q rest [Called (id t) false; GaveUp (id t)]).
Proof.
  intros Hq Hfail Hge. simpl. rewrite Hq. unfold turn. rewrite Hq, Hfail.
  by rewrite (proj2 (Nat.ltb_ge _ _) Hge).
Qed.

(** An idle manager with work to do runs the loop. *)
Lemma processQueue_idle (fuel : nat) q :
  processing q = false -> queue q ≠ [] ->
  processQueue fuel q
  = (fun q' => withProcessing q' false) <$> loop fuel (withProcessing q true).
Proof.
  intros Hidle Hwork. unfold processQueue. rewrite Hidle. simpl.
  by rewrite bool_decide_eq_false_2.
Qed.

(** C3, as the code has it.  With [maxRetries = 3] and tasks A, B, C added
    in that order to a new queue manager, where every call of A's operation
    rejects and the first call of B's and of C's resolves: [processQueue]
    returns (nothing is thrown), the queue is empty, and A's operation was
    called four times -- the first call and three retries -- before A was
    given up; then B's and C's operations were called once each, in that
    order.  The outcome is the same when each [addTask] finds the manager
    idle and its loop runs to the end before the next task is added. *)
Theorem processQueue_failing_head_then_fifo
  (a b c : string) (opA opB opC : nat -> bool) (fuel : nat) :
  (forall n, opA n = false) ->
  opB 0%nat = true ->
  opC 0%nat = true ->
  (6 <= fuel)%nat ->
  exists q',
    processQueue fuel (push (push (push create a opA) b opB) c opC) = Some q'
    /\ queue q' = []
    /\ processing q' = false
    /\ events q' = [Called a false; Retrying a 1;
                    Called a false; Retrying a 2;
                    Called a false; Retrying a 3;
                    Called a false; GaveUp a;
                    Called b true;
                    Called c true]
    /\ callOrder (events q') = [a; a; a; a; b; c]
    /\ (addTask fuel create a opA ≫= fun q1 =>
        addTask fuel q1 b opB ≫= fun q2 =>
        addTask fuel q2 c opC) = Some q'.
Proof.
  intros HA HB HC Hfuel.
  do 6 (destruct fuel as [|fuel]; [lia|]). clear Hfuel.
  rewrite processQueue_idle by done.
  erewrite loop_retries; [|reflexivity|apply HA|simpl; lia].
  erewrite loop_retries; [|reflexivity|apply HA|simpl; lia].
  erewrite loop_retries; [|reflexivity|apply HA|simpl; lia].
  erewrite loop_gives_up; [|reflexivity|apply HA|simpl; lia].
  erewrite loop_resolves; [|reflexivity|apply HB].
  erewrite loop_resolves; [|reflexivity|apply HC].
  rewrite loop_empty by done. simpl.
  eexists. split; [reflexivity|]. repeat split.
  unfold addTask. cbn [push create withQueue processing queue app].
  rewrite processQueue_idle by done.
  erewrite loop_retries; [|reflexivity|apply HA|simpl; lia].
  erewrite loop_retries; [|reflexivity|apply HA|simpl; lia].
  erewrite loop_retries; [|reflexivity|apply HA|simpl; lia].
  erewrite loop_gives_up; [|reflexivity|apply HA|simpl; lia].
  rewrite loop_empty by done. simpl.
  rewrite processQueue_idle by done.
  erewrite loop_resolves; [|reflexivity|apply HB].
  rewrite loop_empty by done. simpl.
  rewrite processQueue_idle by done.
  erewrite loop_resolves; [|reflexivity|apply HC].
  rewrite loop_empty by done. reflexivity.
Qed.

Lemma processQueue_failing_head_then_fifo_witness :
  (forall n, Samples.alwaysFails n = false)
  /\ Samples.succeeds 0%nat = true
  /\ (6 <= 6)%nat
  /\ exists q',
       processQueue 6 Samples.queueABC = Some q'
       /\ queue q' = []
       /\ processing q' = false
       /\ events q' = [Called "A" false; Retrying "A" 1;
                       Called "A" false; Retrying "A" 2;
                       Called "A" false; Retrying "A" 3;
                       Called "A" false; GaveUp "A";
                       Called "B" true;
                       Called "C" true]
       /\ callOrder (events q') = ["A"; "A"; "A"; "A"; "B"; "C"]
       /\ (addTask 6 create "A" Samples.alwaysFails ≫= fun q1 =>
           addTask 6 q1 "B" Samples.succeeds ≫= fun q2 =>
           addTask 6 q2 "C" Samples.succeeds) = Some q'.
Proof.
  split; [intros n; reflexivity|]. split; [reflexivity|]. split; [lia|].
  apply (processQueue_failing_head_then_fifo "A" "B" "C"
           Samples.alwaysFails Samples.succeeds Samples.succeeds 6%nat).
  - intros n. reflexivity.
  - reflexivity.
  - reflexivity.
  - lia.
Defined.

(** C3, as stated, fails on the sample queue: A's operation is not called
    exactly three times. *)
Lemma processQueue_three_attempts_counterexample :
  ¬ (exists q',
       processQueue 6 Samples.queueABC = Some q'
       /\ calls "A" (events q') = 3%nat).
Proof.
  intros (q' & Hrun & Hcalls).
  vm_compute in Hrun. injection Hrun as <-.
  vm_compute in Hcalls. discriminate.
Qed.

(** The count on the sample queue. *)
Example processQueue_sample_calls :
  (fun q' => (calls "A" (events q'), calls "B" (events q'), calls "C" (events q')))
    <$> processQueue 6 Samples.queueABC
  = Some (4%nat, 1%nat, 1%nat).
Proof. reflexivity. Qed.

End QueueFacts.

(** ** The payment ledger *)

Section PaymentFacts.
Import Payment.
Implicit Types (ps : PaymentService) (p payment : PaymentDetails)
  (oid ref : string) (env : Env) (txHash : option string).

(** [verifyPayment] on a known order id. *)
Lemma verifyPayment_known ps oid txHash env payment :
  payments ps !! oid = Some payment ->
  verifyPayment ps oid txHash env
  = if hasPaymentExpired ps payment (now env)
    then (false, handleExpiredPayment ps oid payment)
    else retryVerification ps oid payment txHash env.
Proof.
  intros Hknown. unfold verifyPayment, verifyPaymentTry. rewrite Hknown.
  by destruct (hasPaymentExpired ps payment (now env)).
Qed.

(** After [payment.status = st], the entry the payment was found under
    holds the payment with that status. *)
Lemma assignStatus_lookup ps ref payment st :
  payments (assignStatus ps ref payment st) !! ref = Some (withStatus st payment).
Proof.
  unfold assignStatus. simpl.
  destruct (decide (orderId payment = ref)) as [->|Hne].
  - by rewrite lookup_insert_eq.
  - by rewrite lookup_insert_ne, lookup_insert_eq.
Qed.

(** It changes no entry other than to that payment. *)
Lemma assignStatus_any ps ref payment st oid p :
  payments ps !! oid = Some p ->
  payments (assignStatus ps ref payment st) !! oid = Some p
  \/ payments (assignStatus ps ref payment st) !! oid = Some (withStatus st payment).
Proof.
  intros Hp. unfold assignStatus. simpl.
  destruct (decide (orderId payment = oid)) as [->|Hne].
  - right. by rewrite lookup_insert_eq.
  - rewrite lookup_insert_ne by done.
    destruct (decide (ref = oid)) as [->|Hne'].
    + right. by rewrite lookup_insert_eq.
    + left. by rewrite lookup_insert_ne.
Qed.

Lemma updateStored_payments ps oid st :
  payments (updateStored ps oid st) = payments ps.
Proof. reflexivity. Qed.

Lemma updateStored_failedPayments ps oid st :
  failedPayments (updateStored ps oid st) = failedPayments ps.
Proof. reflexivity. Qed.

Lemma updatePaymentStatus_cells (s : Storage.StorageService) oid st :
  Storage.cells (Storage.updatePaymentStatus s oid st) = Storage.cells s.
Proof.
  unfold Storage.updatePaymentStatus.
  by destruct (Storage.assignFirst oid st (Storage.requests s)) as [[??]|].
Qed.

Lemma getPaymentStatus_lookup ps oid p :
  payments ps !! oid = Some p -> getPaymentStatus ps oid = statusName (status p).
Proof. intros Hp. unfold getPaymentStatus. by rewrite Hp. Qed.

(** C2. Once more than [maxVerificationTime = 1800000] ms have passed since
    a payment was created, [verifyPayment] on its order id answers [false]
    and leaves the payment [failed], whatever transaction hash is supplied
    and whatever the chain would answer.  The decision is taken before the
    attempt counting: no failure is recorded, no attempt is counted, and the
    external check is not run (the recorded balance is not touched). *)
Theorem verifyPayment_expired ps oid txHash env payment :
  payments ps !! oid = Some payment ->
  maxVerificationTime (retryConfig ps) = 1800000 ->
  now env - timestamp payment > 1800000 ->
  fst (verifyPayment ps oid txHash env) = false
  /\ status <$> payments (snd (verifyPayment ps oid txHash env)) !! oid = Some failed
  /\ getPaymentStatus (snd (verifyPayment ps oid txHash env)) oid = "failed"
  /\ failedPayments (snd (verifyPayment ps oid txHash env)) = failedPayments ps
  /\ attemptsOf (snd (verifyPayment ps oid txHash env)) oid = attemptsOf ps oid
  /\ Storage.cells (storageService (snd (verifyPayment ps oid txHash env)))
     = Storage.cells (storageService ps)
  /\ snd (verifyPayment ps oid txHash env) = handleExpiredPayment ps oid payment.
Proof.
  intros Hknown Hmax Hlate.
  rewrite (verifyPayment_known _ _ _ _ _ Hknown).
  assert (hasPaymentExpired ps payment (now env) = true) as ->.
  { unfold hasPaymentExpired. rewrite Hmax. apply Z.gtb_gt. lia. }
  cbn [fst snd].
  assert (payments (handleExpiredPayment ps oid payment) !! oid
          = Some (withStatus failed payment)) as Hlook.
  { unfold handleExpiredPayment. rewrite updateStored_payments.
    apply assignStatus_lookup. }
  split; [done|]. split; [by rewrite Hlook|].
  split; [by rewrite (getPaymentStatus_lookup _ _ _ Hlook)|].
  split; [done|]. split; [done|]. split; [|done].
  unfold handleExpiredPayment, updateStored. cbn [storageService withStorage].
  apply updatePaymentStatus_cells.
Qed.

Lemma verifyPayment_expired_witness :
  payments Samples.ledger1 !! Samples.order1
  = Some (fst (createPaymentRequest Samples.ledger0 "user1234" "t1" 1000))
  /\ maxVerificationTime (retryConfig Samples.ledger1) = 1800000
  /\ now (Samples.envPaid 1801001) - 1000 > 1800000
  /\ fst (verifyPayment Samples.ledger1 Samples.order1 (Some "0xabc")
            (Samples.envPaid 1801001)) = false
  /\ getPaymentStatus
       (snd (verifyPayment Samples.ledger1 Samples.order1 (Some "0xabc")
               (Samples.envPaid 1801001))) Samples.order1 = "failed".
Proof.
  assert (H1 : payments Samples.ledger1 !! Samples.order1
               = Some (fst (createPaymentRequest Samples.ledger0 "user1234" "t1" 1000)))
    by reflexivity.
  assert (H2 : maxVerificationTime (retryConfig Samples.ledger1) = 1800000)
    by reflexivity.
  assert (H3 : now (Samples.envPaid 1801001)
               - timestamp (fst (createPaymentRequest Samples.ledger0
                                   "user1234" "t1" 1000)) > 1800000)
    by (simpl; lia).
  split; [exact H1|]. split; [exact H2|]. split; [exact H3|].
  destruct (verifyPayment_expired Samples.ledger1 Samples.order1 (Some "0xabc")
              (Samples.envPaid 1801001) _ H1 H2 H3) as (Hanswer & _ & Hstatus & _).
  split; [exact Hanswer | exact Hstatus].
Defined.

(** The same proof one millisecond earlier, at the very end of the
    verification time, is accepted. *)
Example verifyPayment_just_in_time :
  let answer := verifyPayment Samples.ledger1 Samples.order1 (Some "0xabc")
                  (Samples.envPaid 1801000) in
  fst answer = true /\ getPaymentStatus (snd answer) Samples.order1 = "completed".
Proof. split; reflexivity. Qed.

(** A failure is recorded with one more attempt than before. *)
Lemma attemptsOf_recordFailure ps oid message (t : Z) :
  attemptsOf (recordFailure ps oid message t) oid = attemptsOf ps oid + 1.
Proof.
  unfold attemptsOf, recordFailure. simpl. rewrite lookup_insert_eq. simpl.
  by destruct (failedPayments ps !! oid).
Qed.

(** One call of [verifyPayment] on a known payment that has not expired:
    below [maxAttempts] recorded failures a failed check is counted and the
    payments stay as they are; from [maxAttempts] on, the payment is failed
    without a check. *)
Lemma verifyPayment_counting_step ps oid txHash env payment :
  payments ps !! oid = Some payment ->
  hasPaymentExpired ps payment (now env) = false ->
  (attemptsOf ps (orderId payment) < maxAttempts (retryConfig ps) ->
   fst (externalCheck ps payment txHash env) = false ->
   fst (verifyPayment ps oid txHash env) = false
   /\ attemptsOf (snd (verifyPayment ps oid txHash env)) (orderId payment)
      = attemptsOf ps (orderId payment) + 1
   /\ payments (snd (verifyPayment ps oid txHash env)) = payments ps)
  /\ (maxAttempts (retryConfig ps) <= attemptsOf ps (orderId payment) ->
      fst (verifyPayment ps oid txHash env) = false
      /\ status <$> payments (snd (verifyPayment ps oid txHash env)) !! oid
         = Some failed
      /\ failedPayments (snd (verifyPayment ps oid txHash env)) = failedPayments ps
      /\ Storage.cells (storageService (snd (verifyPayment ps oid txHash env)))
         = Storage.cells (storageService ps)).
Proof.
  intros Hknown Hfresh.
  rewrite (verifyPayment_known _ _ _ _ _ Hknown), Hfresh.
  unfold retryVerification. split.
  - intros Hfew Hcheck.
    rewrite Z.geb_leb, (proj2 (Z.leb_gt _ _)) by lia.
    destruct (externalCheck ps payment txHash env) as [isValid s].
    simpl in Hcheck. subst isValid. cbn [fst snd].
    split; [done|]. split; [|done].
    unfold handleFailedVerification. by rewrite attemptsOf_recordFailure.
  - intros Hmany.
    rewrite (proj2 (Z.geb_le _ _)) by lia. cbn [fst snd].
    split; [done|]. split.
    + unfold handleMaxRetriesExceeded. rewrite updateStored_payments.
      by rewrite assignStatus_lookup.
    + split; [done|].
      unfold handleMaxRetriesExceeded, updateStored. cbn [storageService withStorage].
      apply updatePaymentStatus_cells.
Qed.

Lemma verifyPayment_retryConfig ps oid txHash env :
  retryConfig (snd (verifyPayment ps oid txHash env)) = retryConfig ps.
Proof.
  unfold verifyPayment, verifyPaymentTry.
  destruct (payments ps !! oid) as [payment|]; [|done].
  destruct (hasPaymentExpired ps payment (now env)); [done|].
  unfold retryVerification.
  destruct (attemptsOf ps (orderId payment) >=? maxAttempts (retryConfig ps));
    [done|].
  by destruct (externalCheck ps payment txHash env) as [[|] s].
Qed.

(** Any number of failed checks, up to [maxAttempts] recorded failures in
    all, leaves the payments as they are and counts the failures. *)
Lemma verifyPayment_failures_accumulate
  (checks : list (option string * Env)) ps oid payment :
  payments ps !! oid = Some payment ->
  orderId payment = oid ->
  Forall (fun c => hasPaymentExpired ps payment (now (snd c)) = false
                   /\ forall ps', fst (externalCheck ps' payment (fst c) (snd c))
                                   = false) checks ->
  attemptsOf ps oid + Z.of_nat (length checks) <= maxAttempts (retryConfig ps) ->
  payments (foldl (fun acc c => snd (verifyPayment acc oid (fst c) (snd c)))
                  ps checks) = payments ps
  /\ attemptsOf (foldl (fun acc c => snd (verifyPayment acc oid (fst c) (snd c)))
                       ps checks) oid
     = attemptsOf ps oid + Z.of_nat (length checks).
Proof.
  revert ps. induction checks as [|[txHash env] checks IH];
    intros ps Hknown Hoid Hchecks Hroom.
  - simpl. split; [done | lia].
  - apply Forall_cons in Hchecks as [[Hfresh Hfails] Hchecks].
    simpl in Hfresh, Hfails.
    rewrite length_cons, Nat2Z.inj_succ in Hroom.
    destruct (verifyPayment_counting_step ps oid txHash env payment
                Hknown Hfresh) as [Hfew _].
    rewrite Hoid in Hfew.
    destruct Hfew as (_ & Hcount & Hsame); [lia | apply Hfails |].
    set (ps1 := snd (verifyPayment ps oid txHash env)) in *.
    assert (retryConfig ps1 = retryConfig ps) as Hconfig
      by apply verifyPayment_retryConfig.
    simpl foldl. fold ps1.
    destruct (IH ps1) as [Hpayments Hattempts].
    + by rewrite Hsame.
    + done.
    + eapply Forall_impl; [exact Hchecks|]. intros c [Hc1 Hc2]. split; [|done].
      unfold hasPaymentExpired in *. by rewrite Hconfig.
    + rewrite Hconfig, Hcount. lia.
    + rewrite Hpayments, Hattempts, Hsame, Hcount.
      rewrite length_cons, Nat2Z.inj_succ. split; [done | lia].
Qed.

(** C1, as the code has it.  On a known payment that has not expired:
    while fewer than [maxAttempts] failures are recorded, a [verifyPayment]
    whose external check answers [false] answers [false], records one more
    failure and leaves every payment, and so the status, as it is -- also
    when the failure it records is the [maxAttempts]-th; once [maxAttempts]
    failures are recorded, the next [verifyPayment] answers [false] and sets
    the status to [failed], without running the external check and without
    recording a failure.  So any run of failed checks that brings the count
    to at most [maxAttempts] leaves the status untouched. *)
Theorem verifyPayment_failure_counting ps oid txHash env payment :
  payments ps !! oid = Some payment ->
  hasPaymentExpired ps payment (now env) = false ->
  (attemptsOf ps (orderId payment) < maxAttempts (retryConfig ps) ->
   fst (externalCheck ps payment txHash env) = false ->
   fst (verifyPayment ps oid txHash env) = false
   /\ attemptsOf (snd (verifyPayment ps oid txHash env)) (orderId payment)
      = attemptsOf ps (orderId payment) + 1
   /\ payments (snd (verifyPayment ps oid txHash env)) = payments ps)
  /\ (maxAttempts (retryConfig ps) <= attemptsOf ps (orderId payment) ->
      fst (verifyPayment ps oid txHash env) = false
      /\ status <$> payments (snd (verifyPayment ps oid txHash env)) !! oid
         = Some failed
      /\ failedPayments (snd (verifyPayment ps oid txHash env)) = failedPayments ps
      /\ Storage.cells (storageService (snd (verifyPayment ps oid txHash env)))
         = Storage.cells (storageService ps))
  /\ (forall checks : list (option string * Env),
        orderId payment = oid ->
        Forall (fun c => hasPaymentExpired ps payment (now (snd c)) = false
                         /\ forall ps', fst (externalCheck ps' payment (fst c) (snd c))
                                         = false) checks ->
        attemptsOf ps oid + Z.of_nat (length checks) <= maxAttempts (retryConfig ps) ->
        payments (foldl (fun acc c => snd (verifyPayment acc oid (fst c) (snd c)))
                        ps checks) = payments ps
        /\ attemptsOf (foldl (fun acc c => snd (verifyPayment acc oid (fst c) (snd c)))
                             ps checks) oid
           = attemptsOf ps oid + Z.of_nat (length checks)).
Proof.
  intros Hknown Hfresh.
  destruct (verifyPayment_counting_step ps oid txHash env payment Hknown Hfresh)
    as [Hfew Hmany].
  split; [exact Hfew|]. split; [exact Hmany|].
  intros checks Hoid Hchecks Hroom.
  by apply (verifyPayment_failures_accumulate checks ps oid payment).
Qed.

Lemma verifyPayment_failure_counting_witness :
  (payments Samples.ledger1 !! Samples.order1
   = Some (fst (createPaymentRequest Samples.ledger0 "user1234" "t1" 1000))
   /\ attemptsOf Samples.ledger1 Samples.order1 < 3
   /\ attemptsOf
        (snd (verifyPayment Samples.ledger1 Samples.order1 None
                (Samples.envAt 2000 0))) Samples.order1
      = attemptsOf Samples.ledger1 Samples.order1 + 1)
  /\ (3 <= attemptsOf Samples.ledger3 Samples.order1
      /\ status <$> payments
            (snd (verifyPayment Samples.ledger3 Samples.order1 None
                    (Samples.envAt 5000 0))) !! Samples.order1
         = Some failed).
Proof.
  split.
  - split; [reflexivity|]. split; [by vm_compute|].
    destruct (verifyPayment_failure_counting Samples.ledger1 Samples.order1 None
                (Samples.envAt 2000 0)
                (fst (createPaymentRequest Samples.ledger0 "user1234" "t1" 1000))
                eq_refl eq_refl) as (Hfew & _ & _).
    destruct Hfew as (_ & Hattempts & _); [by vm_compute | reflexivity |].
    exact Hattempts.
  - split; [by vm_compute|].
    destruct (verifyPayment_failure_counting Samples.ledger3 Samples.order1 None
                (Samples.envAt 5000 0)
                (fst (createPaymentRequest Samples.ledger0 "user1234" "t1" 1000))
                eq_refl eq_refl) as (_ & Hmany & _).
    destruct Hmany as (_ & Hstatus & _); [by vm_compute|].
    exact Hstatus.
Defined.

(** C1, as stated, fails on the sample ledger: after the third recorded
    failure, which is the [maxAttempts]-th, the payment is still [pending],
    not [failed]; it is the fourth call that fails it. *)
Lemma verifyPayment_third_failure_counterexample :
  attemptsOf Samples.ledger3 Samples.order1 = maxAttempts (retryConfig Samples.ledger3)
  /\ status <$> payments Samples.ledger3 !! Samples.order1 = Some pending
  /\ status <$> payments Samples.ledger3 !! Samples.order1 ≠ Some failed
  /\ status <$> payments Samples.ledger4 !! Samples.order1 = Some failed.
Proof. repeat split; by vm_compute. Qed.

(** C6, as the code has it.  For an order id the ledger does not know, the
    [try] block of [verifyPayment] throws "Payment not found: <orderId>",
    and the method catches it: it answers [false] and records a failure
    under that order id, with the message and one more attempt.  The
    payments and the request store are left as they were. *)
Theorem verifyPayment_unknown_order ps oid txHash env :
  payments ps !! oid = None ->
  verifyPaymentTry ps oid txHash env = Throw (String.append "Payment not found: " oid)
  /\ fst (verifyPayment ps oid txHash env) = false
  /\ payments (snd (verifyPayment ps oid txHash env)) = payments ps
  /\ storageService (snd (verifyPayment ps oid txHash env)) = storageService ps
  /\ failedPayments (snd (verifyPayment ps oid txHash env))
     = <[oid := {| failedOrderId := oid;
                   error := String.append "Payment not found: " oid;
                   attempts := attemptsOf ps oid + 1;
                   lastAttempt := now env |}]> (failedPayments ps).
Proof.
  intros Hunknown. unfold verifyPayment, verifyPaymentTry. rewrite Hunknown.
  repeat split. simpl. unfold attemptsOf.
  by destruct (failedPayments ps !! oid).
Qed.

Lemma verifyPayment_unknown_order_witness :
  payments Samples.ledger0 !! "PAY-404" = None
  /\ fst (verifyPayment Samples.ledger0 "PAY-404" None (Samples.envAt 1000 0)) = false
  /\ payments (snd (verifyPayment Samples.ledger0 "PAY-404" None (Samples.envAt 1000 0)))
     = payments Samples.ledger0.
Proof.
  split; [reflexivity|].
  destruct (verifyPayment_unknown_order Samples.ledger0 "PAY-404" None
              (Samples.envAt 1000 0) eq_refl) as (_ & Hanswer & Hpayments & _).
  split; [exact Hanswer | exact Hpayments].
Defined.

(** C6, as stated, fails on the empty ledger: the call completes with the
    ordinary answer [false], and the ledger is not what it was -- it now
    holds a failure record for the unknown order id. *)
Lemma verifyPayment_unknown_order_counterexample :
  fst (verifyPayment Samples.ledger0 "PAY-404" None (Samples.envAt 1000 0)) = false
  /\ failedPayments Samples.ledger0 !! "PAY-404" = None
  /\ attempts <$> failedPayments
       (snd (verifyPayment Samples.ledger0 "PAY-404" None (Samples.envAt 1000 0)))
       !! "PAY-404" = Some 1
  /\ snd (verifyPayment Samples.ledger0 "PAY-404" None (Samples.envAt 1000 0))
     ≠ Samples.ledger0.
Proof.
  repeat split.
  intros Hsame.
  assert (failedPayments
            (snd (verifyPayment Samples.ledger0 "PAY-404" None (Samples.envAt 1000 0)))
            !! "PAY-404" = None) as Hnone by (by rewrite Hsame).
  discriminate Hnone.
Qed.

(** No call of [verifyPayment] turns a status into anything but [completed]
    or [failed]. *)
Lemma verifyPayment_status ps oid0 txHash env oid p :
  payments ps !! oid = Some p ->
  exists p',
    payments (snd (verifyPayment ps oid0 txHash env)) !! oid = Some p'
    /\ (status p' = status p \/ status p' = completed \/ status p' = failed).
Proof.
  intros Hp. unfold verifyPayment, verifyPaymentTry.
  destruct (payments ps !! oid0) as [payment|] eqn:Hknown; cbn [snd].
  - destruct (hasPaymentExpired ps payment (now env)); cbn [snd].
    + unfold handleExpiredPayment. rewrite updateStored_payments.
      destruct (assignStatus_any ps oid0 payment failed oid p Hp) as [->| ->];
        eexists; split; eauto.
    + unfold retryVerification.
      destruct (attemptsOf ps (orderId payment) >=? maxAttempts (retryConfig ps));
        cbn [snd].
      * unfold handleMaxRetriesExceeded. rewrite updateStored_payments.
        destruct (assignStatus_any ps oid0 payment failed oid p Hp) as [->| ->];
          eexists; split; eauto.
      * destruct (externalCheck ps payment txHash env) as [[|] s]; cbn [snd].
        -- unfold handleSuccessfulPayment. rewrite updateStored_payments.
           change (payments (withFailedPayments ?x _)) with (payments x).
           destruct (assignStatus_any (withStorage ps s) oid0 payment completed
                       oid p Hp) as [->| ->]; eexists; split; eauto.
        -- exists p. split; [done | by left].
  - exists p. split; [done | by left].
Qed.

Lemma withStorage_same ps : Payment.withStorage ps (storageService ps) = ps.
Proof. by destruct ps. Qed.

(** A proof by transaction hash that the chain confirms completes the
    payment. *)
Lemma verifyPayment_by_hash ps oid env (c : ascii) (h : string) payment :
  payments ps !! oid = Some payment ->
  hasPaymentExpired ps payment (now env) = false ->
  attemptsOf ps (orderId payment) < maxAttempts (retryConfig ps) ->
  verifyEthereumTransaction env (String c h) payment = true ->
  verifyPayment ps oid (Some (String c h)) env
  = (true, handleSuccessfulPayment ps oid payment).
Proof.
  intros Hknown Hfresh Hfew Hvalid.
  rewrite (verifyPayment_known _ _ _ _ _ Hknown), Hfresh.
  unfold retryVerification.
  rewrite Z.geb_leb, (proj2 (Z.leb_gt _ _)) by lia.
  unfold externalCheck. rewrite Hvalid. by rewrite withStorage_same.
Qed.

Lemma handleSuccessfulPayment_lookup ps payment :
  payments (handleSuccessfulPayment ps (orderId payment) payment)
    !! orderId payment = Some (withStatus completed payment)
  /\ failedPayments (handleSuccessfulPayment ps (orderId payment) payment)
       !! orderId payment = None
  /\ retryConfig (handleSuccessfulPayment ps (orderId payment) payment)
     = retryConfig ps.
Proof.
  unfold handleSuccessfulPayment. rewrite updateStored_payments,
    updateStored_failedPayments.
  cbn [payments failedPayments withFailedPayments retryConfig updateStored
       Payment.withStorage].
  split; [apply assignStatus_lookup|]. split; [|done].
  by rewrite lookup_delete_eq.
Qed.

(** On the storage service of the repository the balance check answers
    [false], whatever the wallet holds: the call of the missing [getValue]
    throws inside the [try] of the check. *)
Lemma checkPaymentAddresses_repository env (s : Storage.StorageService) p :
  Storage.reachable s = false ->
  checkPaymentAddresses env s p = (false, s).
Proof.
  intros Hrepo. unfold checkPaymentAddresses, Storage.getValue.
  rewrite Hrepo. by destruct (getBalance env _).
Qed.

(** There, a [verifyPayment] without transaction hash on a payment that has
    not expired and has attempts left records a failure and answers
    [false]. *)
Lemma verifyPayment_repository ps oid env p :
  Storage.reachable (storageService ps) = false ->
  payments ps !! oid = Some p ->
  hasPaymentExpired ps p (now env) = false ->
  attemptsOf ps (orderId p) < maxAttempts (retryConfig ps) ->
  verifyPayment ps oid None env
  = (false, handleFailedVerification ps p (now env)).
Proof.
  intros Hrepo Hknown Hfresh Hfew.
  rewrite (verifyPayment_known _ _ _ _ _ Hknown), Hfresh.
  unfold retryVerification.
  rewrite Z.geb_leb, (proj2 (Z.leb_gt _ _)) by lia.
  unfold externalCheck.
  rewrite (checkPaymentAddresses_repository _ _ _ Hrepo).
  by rewrite withStorage_same.
Qed.

(** Without a transaction hash, [verifyPayment] on the storage service of
    the repository never answers [true]. *)
Lemma verifyPayment_repository_false ps oid env :
  Storage.reachable (storageService ps) = false ->
  fst (verifyPayment ps oid None env) = false.
Proof.
  intros Hrepo. unfold verifyPayment, verifyPaymentTry.
  destruct (payments ps !! oid) as [p|]; [|done].
  destruct (hasPaymentExpired ps p (now env)); [done|].
  unfold retryVerification.
  destruct (attemptsOf ps (orderId p) >=? maxAttempts (retryConfig ps)); [done|].
  unfold externalCheck.
  by rewrite (checkPaymentAddresses_repository _ _ _ Hrepo).
Qed.

(** A [verifyPayment] made after the verification time fails the payment,
    whatever its status. *)
Lemma verifyPayment_late ps oid txHash env p :
  payments ps !! oid = Some p ->
  hasPaymentExpired ps p (now env) = true ->
  verifyPayment ps oid txHash env = (false, handleExpiredPayment ps oid p).
Proof.
  intros Hknown Hlate. by rewrite (verifyPayment_known _ _ _ _ _ Hknown), Hlate.
Qed.

(** C8, as the code has it.  A call of [verifyPayment] or of
    [retryFailedPayment] leaves the status of a payment as it is or sets it
    to [completed] or to [failed]: neither ever sets a status to [pending],
    and neither looks at the status the payment has.  A [verifyPayment] with
    a transaction hash that verifies completes a payment that has not
    expired and has attempts left, a [failed] one too; a [verifyPayment]
    made after the verification time fails the payment, a [completed] one
    too.  [retryFailedPayment] on an order id without a failure record
    answers [false] and changes nothing.  With a failure record it sets the
    recorded attempts to 0 and runs [verifyPayment] without a transaction
    hash, the status being left as it was; on the storage service of the
    repository that check cannot succeed, so the call answers [false]: a
    payment that has not expired keeps its status, and attempt number 1 is
    recorded; one that has expired is set to [failed].  A pending status
    comes from [createPaymentRequest] alone, which files a new pending
    payment under its order id. *)
Theorem status_set_to_completed_or_failed_only ps oid0 txHash env :
  (forall oid p,
     payments ps !! oid = Some p ->
     exists p',
       payments (snd (verifyPayment ps oid0 txHash env)) !! oid = Some p'
       /\ (status p' = status p \/ status p' = completed \/ status p' = failed))
  /\ (forall oid p,
        payments ps !! oid = Some p ->
        exists p',
          payments (snd (retryFailedPayment ps oid0 env)) !! oid = Some p'
          /\ (status p' = status p \/ status p' = completed \/ status p' = failed))
  /\ (forall p (c : ascii) (h : string),
        payments ps !! oid0 = Some p ->
        hasPaymentExpired ps p (now env) = false ->
        attemptsOf ps (orderId p) < maxAttempts (retryConfig ps) ->
        verifyEthereumTransaction env (String c h) p = true ->
        fst (verifyPayment ps oid0 (Some (String c h)) env) = true
        /\ status <$> payments (snd (verifyPayment ps oid0 (Some (String c h)) env))
                        !! oid0
           = Some completed)
  /\ (forall p,
        payments ps !! oid0 = Some p ->
        hasPaymentExpired ps p (now env) = true ->
        fst (verifyPayment ps oid0 txHash env) = false
        /\ status <$> payments (snd (verifyPayment ps oid0 txHash env)) !! oid0
           = Some failed)
  /\ (failedPayments ps !! oid0 = None ->
      retryFailedPayment ps oid0 env = (false, ps))
  /\ (forall p f,
        payments ps !! oid0 = Some p ->
        orderId p = oid0 ->
        failedPayments ps !! oid0 = Some f ->
        Storage.reachable (storageService ps) = false ->
        fst (retryFailedPayment ps oid0 env) = false
        /\ (hasPaymentExpired ps p (now env) = false ->
            0 < maxAttempts (retryConfig ps) ->
            payments (snd (retryFailedPayment ps oid0 env)) = payments ps
            /\ attemptsOf (snd (retryFailedPayment ps oid0 env)) oid0 = 1)
        /\ (hasPaymentExpired ps p (now env) = true ->
            status <$> payments (snd (retryFailedPayment ps oid0 env)) !! oid0
            = Some failed
            /\ attemptsOf (snd (retryFailedPayment ps oid0 env)) oid0 = 0))
  /\ (forall user tweet (t : Z),
        status (fst (createPaymentRequest ps user tweet t)) = pending
        /\ payments (snd (createPaymentRequest ps user tweet t))
             !! orderId (fst (createPaymentRequest ps user tweet t))
           = Some (fst (createPaymentRequest ps user tweet t))).
Proof.
  split; [intros oid p Hp; by apply verifyPayment_status|].
  split.
  { intros oid p Hp. unfold retryFailedPayment.
    destruct (failedPayments ps !! oid0) as [f|]; cbn [snd].
    - by apply verifyPayment_status.
    - exists p. split; [done | by left]. }
  split.
  { intros p c h Hp Hfresh Hfew Hvalid.
    rewrite (verifyPayment_by_hash ps oid0 env c h p Hp Hfresh Hfew Hvalid).
    cbn [fst snd]. split; [done|].
    unfold handleSuccessfulPayment. rewrite updateStored_payments.
    change (payments (withFailedPayments ?x _)) with (payments x).
    by rewrite assignStatus_lookup. }
  split.
  { intros p Hp Hlate. rewrite (verifyPayment_late ps oid0 txHash env p Hp Hlate).
    cbn [fst snd]. split; [done|].
    unfold handleExpiredPayment. rewrite updateStored_payments.
    by rewrite assignStatus_lookup. }
  split.
  { intros Hnone. unfold retryFailedPayment. by rewrite Hnone. }
  split; [|intros user tweet t; split; [done | simpl; by rewrite lookup_insert_eq]].
  intros p f Hp Hoid Hf Hrepo. subst oid0.
  unfold retryFailedPayment. rewrite Hf.
  set (reset := {| failedOrderId := failedOrderId f; error := error f;
                   attempts := 0; lastAttempt := lastAttempt f |}).
  set (ps0 := withFailedPayments ps (<[orderId p := reset]> (failedPayments ps))).
  assert (payments ps0 !! orderId p = Some p) as Hp0 by done.
  assert (Storage.reachable (storageService ps0) = false) as Hrepo0 by done.
  assert (attemptsOf ps0 (orderId p) = 0) as Hzero.
  { unfold attemptsOf, ps0. simpl. by rewrite lookup_insert_eq. }
  split; [by apply verifyPayment_repository_false|]. split.
  - intros Hfresh Hmax.
    rewrite (verifyPayment_repository ps0 (orderId p) env p Hrepo0 Hp0)
      by (done || (rewrite Hzero; exact Hmax)).
    cbn [snd]. split; [done|].
    unfold handleFailedVerification. rewrite attemptsOf_recordFailure.
    by rewrite Hzero.
  - intros Hlate.
    rewrite (verifyPayment_late ps0 (orderId p) None env p Hp0) by done.
    cbn [snd]. unfold handleExpiredPayment. rewrite updateStored_payments.
    split; [by rewrite assignStatus_lookup|].
    exact Hzero.
Qed.

Lemma status_set_to_completed_or_failed_only_witness :
  Storage.reachable (storageService Samples.ledgerRepo4) = false
  /\ status <$> payments Samples.ledgerRepo4 !! Samples.order1 = Some failed
  /\ attemptsOf Samples.ledgerRepo4 Samples.order1 = 3
  /\ fst (retryFailedPayment Samples.ledgerRepo4 Samples.order1
            (Samples.envAt 6000 2)) = false
  /\ payments (snd (retryFailedPayment Samples.ledgerRepo4 Samples.order1
                      (Samples.envAt 6000 2)))
     = payments Samples.ledgerRepo4
  /\ attemptsOf (snd (retryFailedPayment Samples.ledgerRepo4 Samples.order1
                        (Samples.envAt 6000 2))) Samples.order1 = 1.
Proof.
  split; [reflexivity|]. split; [reflexivity|]. split; [reflexivity|].
  destruct (status_set_to_completed_or_failed_only Samples.ledgerRepo4
              Samples.order1 None (Samples.envAt 6000 2))
    as (_ & _ & _ & _ & _ & Hretry & _).
  destruct (Hretry _ _ eq_refl eq_refl eq_refl eq_refl) as (Hfalse & Hfresh & _).
  split; [exact Hfalse|]. exact (Hfresh eq_refl eq_refl).
Defined.

(** C8, as stated, fails on the ledger of the repository.  A payment that
    was completed by a transaction hash is set to [failed] by a
    [verifyPayment] that comes after the verification time; a [failed]
    payment is still [failed], not [pending], after [retryFailedPayment],
    and a transaction hash then takes it straight to [completed].  Neither
    move is in the documented graph. *)
Lemma status_graph_counterexample :
  let paid := perform Samples.ledgerRepo1 (Verify Samples.order1 (Some "0xabc"))
                (Samples.envPaid 2000) in
  let late := perform paid (Verify Samples.order1 (Some "0xabc"))
                (Samples.envPaid 1801001) in
  let retried := perform Samples.ledgerRepo4 (Retry Samples.order1)
                   (Samples.envAt 6000 2) in
  let settled := perform retried (Verify Samples.order1 (Some "0xabc"))
                   (Samples.envPaid 7000) in
  (status <$> payments paid !! Samples.order1 = Some completed
   /\ status <$> payments late !! Samples.order1 = Some failed
   /\ documentedMove completed failed = false)
  /\ (status <$> payments Samples.ledgerRepo4 !! Samples.order1 = Some failed
      /\ status <$> payments retried !! Samples.order1 = Some failed
      /\ status <$> payments settled !! Samples.order1 = Some completed
      /\ documentedMove failed completed = false).
Proof. repeat split; by vm_compute. Qed.

(** The balance check never looks at the amount of the payment. *)
Lemma checkPaymentAddresses_ignores_amount env (s : Storage.StorageService) p p' :
  walletAddresses p = walletAddresses p' ->
  checkPaymentAddresses env s p = checkPaymentAddresses env s p'.
Proof. intros Hsame. unfold checkPaymentAddresses. by rewrite Hsame. Qed.

(** C7 fails on the code.  The check by balance holds no payment to a
    tolerance, and accepts none.  On the storage service of the repository
    it answers [false] whatever the wallet holds, a balance that has grown
    by exactly the expected amount included: a [verifyPayment] without
    transaction hash on a payment that has not expired and has attempts
    left answers [false], leaves the payment as it is and records a failed
    attempt.  And on any storage service its answer does not depend on the
    amount of the payment, which it never reads. *)
Theorem balance_check_holds_no_tolerance ps oid env p :
  Storage.reachable (storageService ps) = false ->
  payments ps !! oid = Some p ->
  hasPaymentExpired ps p (now env) = false ->
  attemptsOf ps (orderId p) < maxAttempts (retryConfig ps) ->
  checkPaymentAddresses env (storageService ps) p = (false, storageService ps)
  /\ fst (verifyPayment ps oid None env) = false
  /\ payments (snd (verifyPayment ps oid None env)) = payments ps
  /\ attemptsOf (snd (verifyPayment ps oid None env)) (orderId p)
     = attemptsOf ps (orderId p) + 1
  /\ (forall (s : Storage.StorageService) p',
        walletAddresses p' = walletAddresses p ->
        checkPaymentAddresses env s p' = checkPaymentAddresses env s p).
Proof.
  intros Hrepo Hknown Hfresh Hfew.
  split; [by apply checkPaymentAddresses_repository|].
  rewrite (verifyPayment_repository ps oid env p Hrepo Hknown Hfresh Hfew).
  cbn [fst snd]. split; [done|]. split; [done|]. split.
  - unfold handleFailedVerification. by rewrite attemptsOf_recordFailure.
  - intros s p' Hsame. by apply checkPaymentAddresses_ignores_amount.
Qed.

(** The payment expects 10 / 2000 = 0.005 ether and the wallet, which held
    1 ether when the request was made, holds 1.005 ether: the check by
    balance refuses it, and the payment stays [pending]. *)
Lemma balance_check_holds_no_tolerance_witness :
  amount <$> payments Samples.ledgerRepo1 !! Samples.order1 = Some 10%Q
  /\ fst (verifyPayment Samples.ledgerRepo1 Samples.order1 None
            (Samples.envAt 2000 (1005 # 1000))) = false
  /\ status <$> payments
        (snd (verifyPayment Samples.ledgerRepo1 Samples.order1 None
                (Samples.envAt 2000 (1005 # 1000)))) !! Samples.order1
     = Some pending
  /\ attemptsOf
       (snd (verifyPayment Samples.ledgerRepo1 Samples.order1 None
               (Samples.envAt 2000 (1005 # 1000)))) Samples.order1 = 1.
Proof.
  split; [reflexivity|].
  destruct (balance_check_holds_no_tolerance Samples.ledgerRepo1 Samples.order1
              (Samples.envAt 2000 (1005 # 1000))
              (fst (createPaymentRequest Samples.ledgerRepo0 "user1234" "t1" 1000)))
    as (_ & Hfalse & Hsame & Hattempts & _);
    [reflexivity | reflexivity | reflexivity | by vm_compute |].
  split; [exact Hfalse|]. split; [by rewrite Hsame | exact Hattempts].
Defined.

(** With the wallet as destination, the check by transaction hash is the
    tolerance test on the value of the transaction. *)
Lemma verifyEthereumTransaction_tolerance env h p tx dest :
  getTransaction env h = Ok (Some tx) ->
  to tx = Some dest ->
  toLowerCase dest = toLowerCase (Storage.eth (walletAddresses p)) ->
  verifyEthereumTransaction env h p
  = withinTolerance (Number.ofQ (value tx)) (expectedAmount p).
Proof.
  intros Htx Hto Hdest. unfold verifyEthereumTransaction.
  rewrite Htx, Hto. by rewrite decide_True.
Qed.

End PaymentFacts.

(** ** Checkpoints and recovery *)

Section RecoveryFacts.
Import Storage.
Implicit Types (s : StorageService) (m : list (string * StoredRequest))
  (r : Recovery.RecoverySystem)
  (parse : Text -> result Recovery.ParsedState).

(** On the storage service of the repository the [try] block of
    [saveCheckpoint] throws at its first call, and the one of
    [recoverFromLastCheckpoint] at its only call of the service. *)
Lemma saveCheckpoint_repository r (t : Z) :
  reachable (Recovery.storageService r) = false ->
  Recovery.saveCheckpoint r t
  = (Recovery.logged r Recovery.error "Failed to save checkpoint:",
     Recovery.Returned).
Proof.
  intros Hrepo.
  unfold Recovery.saveCheckpoint, Recovery.saveCheckpointTry, getPendingRequests.
  by rewrite Hrepo.
Qed.

Lemma recoverFromLastCheckpoint_repository parse r :
  reachable (Recovery.storageService r) = false ->
  Recovery.recoverFromLastCheckpoint parse r
  = (Recovery.logged r Recovery.error "Failed to recover from checkpoint:",
     Recovery.Thrown "TypeError: this.storageService.getValue is not a function").
Proof.
  intros Hrepo.
  unfold Recovery.recoverFromLastCheckpoint, Recovery.recoverTry, getValue.
  by rewrite Hrepo.
Qed.

(** C5 fails on the code.  The storage service of the repository has none
    of the methods the checkpoint manager calls on it.  [saveCheckpoint]
    logs the [TypeError] of the first of them and returns with nothing
    written; after a restart on an empty request store,
    [recoverFromLastCheckpoint] logs the [TypeError] of [getValue] and
    throws it to its caller, the store being left empty.  So the round trip
    reproduces no correlation id; for any store that holds a request, the
    ids after it are not those before it. *)
Theorem roundTrip_restores_nothing parse s (t0 t1 t2 : Z) :
  reachable s = false ->
  Recovery.saveCheckpoint (Recovery.create s t0) t1
  = (Recovery.logged (Recovery.create s t0) Recovery.error
       "Failed to save checkpoint:", Recovery.Returned)
  /\ snd (Recovery.roundTrip parse s t0 t1 t2)
     = Recovery.Thrown "TypeError: this.storageService.getValue is not a function"
  /\ requests (Recovery.storageService (fst (Recovery.roundTrip parse s t0 t1 t2)))
     = []
  /\ cells (Recovery.storageService (fst (Recovery.roundTrip parse s t0 t1 t2)))
     = cells s
  /\ (requests s ≠ [] ->
      Recovery.statuses
        (Recovery.storageService (fst (Recovery.roundTrip parse s t0 t1 t2)))
      ≠ Recovery.statuses s).
Proof.
  intros Hrepo.
  assert (Recovery.saveCheckpoint (Recovery.create s t0) t1
          = (Recovery.logged (Recovery.create s t0) Recovery.error
               "Failed to save checkpoint:", Recovery.Returned)) as Hsave
    by (by apply saveCheckpoint_repository).
  split; [exact Hsave|].
  unfold Recovery.roundTrip. rewrite Hsave. cbn [fst].
  rewrite recoverFromLastCheckpoint_repository by exact Hrepo.
  cbn [fst snd]. split; [done|]. split; [done|]. split; [done|].
  intros Hsome. unfold Recovery.statuses. cbn.
  destruct (requests s) as [|kr rest]; [done | discriminate].
Qed.

Lemma roundTrip_restores_nothing_witness :
  reachable Samples.storeMixed = false
  /\ Recovery.statuses Samples.storeMixed
     = [("t1", pending); ("t2", completed); ("t3", pending)]
  /\ snd (Recovery.roundTrip Samples.parseSample Samples.storeMixed 0 10 20)
     = Recovery.Thrown "TypeError: this.storageService.getValue is not a function"
  /\ Recovery.statuses
       (Recovery.storageService
          (fst (Recovery.roundTrip Samples.parseSample Samples.storeMixed 0 10 20)))
     = [].
Proof.
  split; [reflexivity|]. split; [reflexivity|].
  destruct (roundTrip_restores_nothing Samples.parseSample Samples.storeMixed
              0 10 20 eq_refl) as (_ & Hthrown & Hempty & _).
  split; [exact Hthrown|]. unfold Recovery.statuses. by rewrite Hempty.
Defined.









End RecoveryFacts.

(** * Further properties of the code *)

(** ** The request store: storing, looking up, purging *)

Section StoreFacts.
Import Storage.
Implicit Types (s : StorageService) (m : list (string * StoredRequest)).

Lemma keys_set {V : Type} (k : string) (v : V) (l : list (string * V)) :
  JsMap.keys (JsMap.set k v l)
  = if decide (k ∈ JsMap.keys l) then JsMap.keys l else JsMap.keys l ++ [k].
Proof.
  induction l as [|[k' v'] rest IH]; simpl.
  - destruct (decide (k ∈ [])) as [Hin|_]; [by apply elem_of_nil in Hin | done].
  - destruct (decide (k' = k)) as [->|Hne]; simpl.
    + destruct (decide (k ∈ k :: JsMap.keys rest)) as [_|Hout]; [done|].
      exfalso. apply Hout, list_elem_of_here.
    + rewrite IH. destruct (decide (k ∈ JsMap.keys rest)) as [Hin|Hout].
      * destruct (decide (k ∈ k' :: JsMap.keys rest)) as [_|Hout]; [done|].
        exfalso. by apply Hout, list_elem_of_further.
      * destruct (decide (k ∈ k' :: JsMap.keys rest)) as [Hin|_]; [|done].
        exfalso. apply elem_of_cons in Hin as [?|?]; [congruence | done].
Qed.

(** X1. [storeRequest] followed by [getRequest] on the same tweet id gives
    back the request that was stored, whatever the store held before; the
    requests under all other tweet ids are as before; a request stored under
    an id the store already has replaces the old one in place, and one under
    a new id goes last; the key-value side of the service is not touched. *)
Theorem storeRequest_then_getRequest s (request : StoredRequest) :
  exists s',
    storeRequest s (Some request) = Ok s'
    /\ getRequest s' (tweetId request) = Some request
    /\ (forall other, other ≠ tweetId request ->
                      getRequest s' other = getRequest s other)
    /\ JsMap.keys (requests s')
       = (if decide (tweetId request ∈ JsMap.keys (requests s))
          then JsMap.keys (requests s)
          else JsMap.keys (requests s) ++ [tweetId request])
    /\ cells s' = cells s
    /\ reachable s' = reachable s.
Proof.
  eexists. split; [reflexivity|]. unfold getRequest. simpl.
  split; [apply get_set_eq|].
  split; [intros other Hother; by apply get_set_ne|].
  split; [apply keys_set | done].
Qed.

Lemma delete_app_fresh {V : Type} (k : string) (v : V)
  (visited rest : list (string * V)) :
  k ∉ JsMap.keys visited ->
  JsMap.delete k (visited ++ (k, v) :: rest) = visited ++ rest.
Proof.
  induction visited as [|[k' v'] visited IH]; simpl.
  - intros _. by rewrite decide_True.
  - rewrite not_elem_of_cons. intros [Hne Hfresh].
    rewrite decide_False by congruence. by rewrite IH.
Qed.

(** The loop of [cleanup], when it has kept [visited] and is about to go
    through [ahead]. *)
Lemma cleanup_loop (now : Z) (ahead visited : list (string * StoredRequest)) :
  NoDup (JsMap.keys (visited ++ ahead)) ->
  foldl (fun acc kr => if decide (now - timestamp (snd kr) > TWO_DAYS)
                       then JsMap.delete (fst kr) acc
                       else acc)
        (visited ++ ahead) ahead
  = visited ++ filter (fun kr => ¬ (now - timestamp (snd kr) > TWO_DAYS)) ahead.
Proof.
  revert visited. induction ahead as [|[k r] ahead IH]; intros visited Hnd; [done|].
  simpl. destruct (decide (now - timestamp r > TWO_DAYS)) as [Hold|Hyoung].
  - assert (k ∉ JsMap.keys visited) as Hfresh.
    { unfold JsMap.keys in Hnd. rewrite fmap_app in Hnd.
      apply NoDup_app in Hnd as (_ & Hdisj & _). intros Hin.
      apply (Hdisj _ Hin). simpl. apply list_elem_of_here. }
    rewrite (delete_app_fresh _ _ _ _ Hfresh).
    rewrite filter_cons_False by (simpl; tauto).
    apply IH. unfold JsMap.keys in *. rewrite fmap_app in *. simpl in Hnd.
    apply (sublist_NoDup _ _ Hnd).
    apply sublist_app; [done | by apply sublist_cons].
  - rewrite filter_cons_True by (simpl; tauto).
    rewrite (cons_middle (k, r) visited ahead), app_assoc.
    rewrite IH; [by rewrite <- app_assoc|].
    by rewrite <- app_assoc.
Qed.

(** On a store with distinct keys, [cleanup] keeps exactly the entries that
    are at most two days old, in their order. *)
Lemma cleanup_requests s (now : Z) :
  NoDup (JsMap.keys (requests s)) ->
  requests (cleanup s now)
  = filter (fun kr => ¬ (now - timestamp (snd kr) > TWO_DAYS)) (requests s).
Proof. intros Hnd. simpl. by apply (cleanup_loop now (requests s) []). Qed.

Lemma wellKeyed_sublist m m' : m' `sublist_of` m -> wellKeyed m -> wellKeyed m'.
Proof.
  intros Hsub [Hkeys Hnd]. split.
  - apply Forall_forall. intros kr Hin.
    apply (proj1 (Forall_forall _ _) Hkeys). by eapply elem_of_sublist.
  - apply (sublist_NoDup _ (JsMap.keys m)); [exact Hnd|].
    by apply (fmap_sublist fst).
Qed.

Lemma cleanup_keeps_wellKeyed s (now : Z) :
  wellKeyed (requests s) -> wellKeyed (requests (cleanup s now)).
Proof.
  intros Hwf. rewrite cleanup_requests by apply Hwf.
  eapply wellKeyed_sublist; [apply sublist_filter | done].
Qed.

Lemma mutate_keeps_wellKeyed s (c : Mutation) :
  wellKeyed (requests s) -> wellKeyed (requests (mutate s c)).
Proof.
  intros Hwf. destruct c as [request|oid st|now]; simpl.
  - by apply (storeRequest_wellKeyed s request _ Hwf eq_refl).
  - by apply updatePaymentStatus_wellKeyed.
  - by apply cleanup_keeps_wellKeyed.
Qed.

(** X2. Whatever calls of [storeRequest], [updatePaymentStatus] and
    [cleanup] are made on a new store, in whatever order, every request is
    filed under its own tweet id and no tweet id is held twice. *)
Theorem store_always_wellKeyed kv (up : bool) (calls : list Mutation) :
  wellKeyed (requests (foldl mutate (Storage.create kv up) calls)).
Proof.
  assert (forall s, wellKeyed (requests s) ->
                    wellKeyed (requests (foldl mutate s calls))) as Hgen.
  { induction calls as [|c calls IH]; intros s Hwf; [done|].
    simpl. apply IH. by apply mutate_keeps_wellKeyed. }
  apply Hgen, create_wellKeyed.
Qed.

Lemma get_None_fresh {V : Type} (k : string) (l : list (string * V)) :
  JsMap.get k l = None <-> k ∉ JsMap.keys l.
Proof.
  induction l as [|[k' v'] rest IH]; simpl.
  - split; [intros _; apply not_elem_of_nil | done].
  - rewrite not_elem_of_cons. destruct (decide (k' = k)) as [->|Hne].
    + split; [done | intros [? _]; done].
    + rewrite IH. split; [intros ?; split; congruence | intros [_ ?]; done].
Qed.

(** Looking up in what a filter keeps of a map with distinct keys. *)
Lemma get_filter (P : string * StoredRequest -> Prop)
  `{!forall kr, Decision (P kr)} (k : string) m :
  NoDup (JsMap.keys m) ->
  JsMap.get k (filter P m)
  = match JsMap.get k m with
    | Some r => if decide (P (k, r)) then Some r else None
    | None => None
    end.
Proof.
  induction m as [|[k' r'] rest IH]; intros Hnd; [done|].
  simpl in Hnd. apply NoDup_cons in Hnd as [Hfresh Hnd].
  rewrite filter_cons. simpl.
  destruct (decide (k' = k)) as [->|Hne].
  - destruct (decide (P (k, r'))); simpl.
    + by rewrite decide_True.
    + apply get_None_fresh. intros Hin. apply Hfresh.
      apply (elem_of_sublist _ _ _ Hin).
      apply (fmap_sublist fst), sublist_filter.
  - destruct (decide (P (k', r'))); simpl.
    + rewrite decide_False by done. by apply IH.
    + by apply IH.
Qed.

(** X3. On a store whose requests are filed under their own distinct tweet
    ids, [cleanup] removes exactly the requests that are more than two days
    old, whatever the status of their payment: what is left are the other
    entries in their order, a lookup finds a request afterwards exactly when
    it found it before and the request is at most two days old, and the
    key-value side of the service is not touched. *)
Theorem cleanup_purges_by_age_only s (now : Z) :
  wellKeyed (requests s) ->
  requests (cleanup s now)
  = filter (fun kr => ¬ (now - timestamp (snd kr) > TWO_DAYS)) (requests s)
  /\ (forall id,
        getRequest (cleanup s now) id
        = match getRequest s id with
          | Some request =>
              if decide (now - timestamp request > TWO_DAYS)
              then None else Some request
          | None => None
          end)
  /\ cells (cleanup s now) = cells s
  /\ reachable (cleanup s now) = reachable s.
Proof.
  intros [Hkeys Hnd]. split; [by apply cleanup_requests|].
  split; [|done]. intros id. unfold getRequest.
  rewrite (cleanup_requests s now Hnd).
  rewrite (get_filter (fun kr => ¬ (now - timestamp (snd kr) > TWO_DAYS)) id _ Hnd).
  destruct (JsMap.get id (requests s)) as [request|]; [|done]. simpl.
  destruct (decide (now - timestamp request > TWO_DAYS)).
  - by rewrite decide_False by tauto.
  - by rewrite decide_True.
Qed.

Lemma cleanup_purges_by_age_only_witness :
  wellKeyed (requests Samples.store3)
  /\ JsMap.keys (requests (cleanup Samples.store3 (TWO_DAYS + 250)))
     = ["t3"]
  /\ getRequest (cleanup Samples.store3 (TWO_DAYS + 250)) "t1" = None.
Proof.
  split; [exact store3_wellKeyed|].
  destruct (cleanup_purges_by_age_only Samples.store3 (TWO_DAYS + 250)
              store3_wellKeyed) as (Hrequests & Hget & _).
  split; [by rewrite Hrequests | by rewrite Hget].
Defined.

(** X4. [getExpiredRequests] returns, in the order of the store, exactly the
    stored requests whose payment is pending and which are more than one
    hour old; a request whose payment is completed or failed is never
    returned.  Right after a [cleanup] (same clock reading, store filed under
    distinct own tweet ids) it returns exactly the pending requests that are
    more than one hour and at most two days old. *)
Theorem getExpiredRequests_pending_and_stale s (now : Z) (request : StoredRequest) :
  wellKeyed (requests s) ->
  (request ∈ getExpiredRequests s now
   <-> request ∈ JsMap.values (requests s)
       /\ status (payment request) = pending
       /\ now - timestamp request > ONE_HOUR)
  /\ (request ∈ getExpiredRequests (cleanup s now) now
      <-> request ∈ JsMap.values (requests s)
          /\ status (payment request) = pending
          /\ now - timestamp request > ONE_HOUR
          /\ now - timestamp request <= TWO_DAYS)
  /\ getExpiredRequests s now `sublist_of` JsMap.values (requests s).
Proof.
  intros [Hkeys Hnd]. split; [|split].
  - unfold getExpiredRequests. rewrite list_elem_of_filter. tauto.
  - unfold getExpiredRequests. rewrite list_elem_of_filter.
    rewrite (cleanup_requests s now Hnd). unfold JsMap.values.
    rewrite !list_elem_of_fmap. split.
    + intros [[Hage Hpending] ([k r] & -> & Hin)].
      apply list_elem_of_filter in Hin as [Hyoung Hin]. simpl in *.
      split; [by exists (k, r)|]. split; [done|]. split; [done | lia].
    + intros (([k r] & -> & Hin) & Hpending & Hage & Hyoung). simpl in *.
      split; [done|]. exists (k, r). split; [done|].
      apply list_elem_of_filter. split; [simpl; lia | done].
  - apply sublist_filter.
Qed.

Lemma getExpiredRequests_pending_and_stale_witness :
  wellKeyed (requests Samples.store3)
  /\ (Samples.request "t2" "bob" "PAY-2" pending 200
       ∈ getExpiredRequests Samples.store3 (ONE_HOUR + 250))
  /\ getExpiredRequests Samples.store3 (ONE_HOUR + 250)
     = [Samples.request "t1" "alice" "PAY-1" pending 100;
        Samples.request "t2" "bob" "PAY-2" pending 200].
Proof.
  split; [exact store3_wellKeyed|].
  destruct (getExpiredRequests_pending_and_stale Samples.store3 (ONE_HOUR + 250)
              (Samples.request "t2" "bob" "PAY-2" pending 200) store3_wellKeyed)
    as (Hexpired & _ & _).
  split; [|reflexivity].
  apply Hexpired. split.
  - apply list_elem_of_further, list_elem_of_here.
  - split; [reflexivity|]. unfold ONE_HOUR. simpl. lia.
Defined.

End StoreFacts.

(** ** The checkpoint array *)

Section CheckpointFacts.
Import Checkpoints.
Implicit Types (checkpoints : list Checkpoint) (checkpoint : Checkpoint).

Lemma saveCheckpoint_drop checkpoints checkpoint :
  (length checkpoints <= 5)%nat ->
  saveCheckpoint checkpoints checkpoint
  = drop (length (checkpoints ++ [checkpoint]) - 5) (checkpoints ++ [checkpoint]).
Proof.
  intros Hlen. unfold saveCheckpoint.
  rewrite length_app in *. simpl length.
  destruct (5 <? length checkpoints + 1)%nat eqn:Hfull.
  - apply Nat.ltb_lt in Hfull.
    replace (length checkpoints + 1 - 5)%nat with 1%nat by lia.
    by destruct (checkpoints ++ [checkpoint]).
  - apply Nat.ltb_ge in Hfull.
    by replace (length checkpoints + 1 - 5)%nat with 0%nat by lia.
Qed.

Lemma saveCheckpoint_all (saved : list Checkpoint) checkpoints :
  (length checkpoints <= 5)%nat ->
  foldl saveCheckpoint checkpoints saved
  = drop (length (checkpoints ++ saved) - 5) (checkpoints ++ saved).
Proof.
  revert checkpoints. induction saved as [|c saved IH]; intros checkpoints Hlen.
  - rewrite app_nil_r. by replace (length checkpoints - 5)%nat with 0%nat by lia.
  - simpl. rewrite saveCheckpoint_drop by done.
    set (d := (length (checkpoints ++ [c]) - 5)%nat).
    assert (length (checkpoints ++ [c]) = S (length checkpoints)) as Hlen1
      by (rewrite length_app; simpl; lia).
    assert (d <= 1)%nat as Hd by (unfold d; lia).
    rewrite IH by (rewrite length_drop; lia).
    rewrite <- drop_app_le by lia.
    rewrite drop_drop, <- app_assoc. simpl.
    f_equal. rewrite length_drop, !length_app. simpl length.
    rewrite length_app in Hlen1. simpl in Hlen1. unfold d. rewrite length_app.
    simpl. lia.
Qed.

(** X5. The [checkpoints] array holds the last five checkpoints that were
    saved, oldest first: after any number of [saveCheckpoint] calls on the
    new, empty array it is the list of saved checkpoints without all but its
    last five, it never holds more than five, and [getLastCheckpoint] gives
    the checkpoint saved last -- or nothing when none was saved. *)
Theorem saveCheckpoint_keeps_last_five (saved : list Checkpoint) :
  foldl saveCheckpoint [] saved = drop (length saved - 5) saved
  /\ (length (foldl saveCheckpoint [] saved) <= 5)%nat
  /\ getLastCheckpoint (foldl saveCheckpoint [] saved) = last saved.
Proof.
  assert (foldl saveCheckpoint [] saved = drop (length saved - 5) saved) as Hkept.
  { by rewrite saveCheckpoint_all by (simpl; lia). }
  rewrite Hkept. split; [done|]. split; [rewrite length_drop; lia|].
  unfold getLastCheckpoint.
  destruct (drop (length saved - 5) saved) as [|c kept] eqn:Hdrop.
  - assert (length (drop (length saved - 5) saved) = 0%nat) as Hzero
      by (by rewrite Hdrop).
    rewrite length_drop in Hzero.
    destruct saved; [done | simpl in Hzero; lia].
  - rewrite <- Hdrop. rewrite lookup_drop, length_drop.
    rewrite last_lookup. f_equal.
    assert (length (drop (length saved - 5) saved) <> 0%nat) as Hpos
      by (by rewrite Hdrop).
    rewrite length_drop in Hpos. lia.
Qed.

End CheckpointFacts.

(** ** The rate limiter: bounds, waiting time, sweeping, isolation *)

Section LimiterFacts.
Import Limiter.
Implicit Types (rl : RateLimiter) (userId : string) (now : Z).

(** What a call does depends on the caller's window and the ceiling only. *)
Lemma checkLimit_local rl1 rl2 userId now :
  limits rl1 !! userId = limits rl2 !! userId ->
  maxRequestsPerHour rl1 = maxRequestsPerHour rl2 ->
  fst (checkLimit rl1 userId now) = fst (checkLimit rl2 userId now)
  /\ limits (snd (checkLimit rl1 userId now)) !! userId
     = limits (snd (checkLimit rl2 userId now)) !! userId.
Proof.
  intros Hwin Hmax. unfold checkLimit. rewrite Hwin, Hmax.
  destruct (limits rl2 !! userId) as [l|] eqn:Hl; simpl.
  - destruct (now >? resetTime l); simpl; [by rewrite !lookup_insert_eq|].
    destruct (count l >=? maxRequestsPerHour rl2); simpl.
    + by rewrite Hwin, Hl.
    + by rewrite !lookup_insert_eq.
  - by rewrite !lookup_insert_eq.
Qed.

Lemma checkAll_ceiling rl (calls : list (string * Z)) :
  maxRequestsPerHour (checkAll rl calls) = maxRequestsPerHour rl.
Proof.
  revert rl. induction calls as [|c calls IH]; intros rl; [done|].
  unfold checkAll in *. simpl. by rewrite IH, checkLimit_ceiling.
Qed.

(** One call keeps every count between 1 and the ceiling (or 1, should the
    ceiling be lower). *)
Lemma checkLimit_keeps_bounds rl userId now :
  (forall u l, limits rl !! u = Some l ->
               1 <= count l <= Z.max 1 (maxRequestsPerHour rl)) ->
  forall u l, limits (snd (checkLimit rl userId now)) !! u = Some l ->
              1 <= count l <= Z.max 1 (maxRequestsPerHour rl).
Proof.
  intros Hbounds u l. unfold checkLimit.
  destruct (limits rl !! userId) as [userLimit|] eqn:Hwin; simpl.
  - destruct (now >? resetTime userLimit); simpl.
    + destruct (decide (userId = u)) as [->|Hne].
      * rewrite lookup_insert_eq. intros [= <-]. simpl. lia.
      * rewrite lookup_insert_ne by done. apply Hbounds.
    + destruct (count userLimit >=? maxRequestsPerHour rl) eqn:Hfull; simpl.
      * apply Hbounds.
      * destruct (decide (userId = u)) as [->|Hne].
        -- rewrite lookup_insert_eq. intros [= <-]. simpl.
           pose proof (Hbounds _ _ Hwin).
           rewrite Z.geb_leb in Hfull. apply Z.leb_gt in Hfull. lia.
        -- rewrite lookup_insert_ne by done. apply Hbounds.
  - destruct (decide (userId = u)) as [->|Hne].
    + rewrite lookup_insert_eq. intros [= <-]. simpl. lia.
    + rewrite lookup_insert_ne by done. apply Hbounds.
Qed.

(** X6. After any calls of [checkLimit], by any users at any clock
    readings, on a new limiter, the count of every window is at least 1 and
    at most the ceiling (at most 1 when the ceiling is below 1): a refused
    request is not counted. *)
Theorem count_within_ceiling (ceiling : option Z) (calls : list (string * Z))
  userId (l : RateLimit) :
  limits (checkAll (Limiter.create ceiling) calls) !! userId = Some l ->
  1 <= count l <= Z.max 1 (default 10 ceiling).
Proof.
  assert (forall rl,
            (forall u w, limits rl !! u = Some w ->
                         1 <= count w <= Z.max 1 (maxRequestsPerHour rl)) ->
            forall u w, limits (checkAll rl calls) !! u = Some w ->
                        1 <= count w <= Z.max 1 (maxRequestsPerHour rl)) as Hgen.
  { induction calls as [|c calls IH]; intros rl Hbounds; [done|].
    intros u w Hw.
    change (checkAll rl (c :: calls))
      with (checkAll (snd (checkLimit rl (fst c) (snd c))) calls) in Hw.
    apply IH in Hw.
    - by rewrite checkLimit_ceiling in Hw.
    - intros u' w' Hw'. rewrite checkLimit_ceiling.
      by eapply checkLimit_keeps_bounds. }
  apply (Hgen (Limiter.create ceiling)). intros u w. simpl. by rewrite lookup_empty.
Qed.

Lemma count_within_ceiling_witness :
  limits (checkAll Samples.limiter3
            [("alice", 1000); ("bob", 1500); ("alice", 2000); ("alice", 3000);
             ("alice", 4000); ("alice", 5000)]) !! "alice"
  = Some {| count := 3; resetTime := 3601000 |}
  /\ 1 <= 3 <= Z.max 1 3.
Proof.
  split; [reflexivity|].
  exact (count_within_ceiling (Some 3)
           [("alice", 1000); ("bob", 1500); ("alice", 2000); ("alice", 3000);
            ("alice", 4000); ("alice", 5000)] "alice"
           {| count := 3; resetTime := 3601000 |} eq_refl).
Defined.

(** X7. When [checkLimit] refuses a user, the limiter is left as it was, and
    [getTimeUntilReset] read at the same moment is the time to the window's
    [resetTime], which is not negative: the user is refused again at every
    moment up to and including that time, and a call made any later opens a
    new window and is allowed. *)
Theorem refused_until_reset rl rl' userId now :
  checkLimit rl userId now = (false, rl') ->
  rl' = rl
  /\ 0 <= getTimeUntilReset rl' userId now
  /\ (forall t, t <= now + getTimeUntilReset rl' userId now ->
                checkLimit rl' userId t = (false, rl'))
  /\ (forall t, now + getTimeUntilReset rl' userId now < t ->
                checkLimit rl' userId t
                = (true, withLimit rl' userId
                           {| count := 1; resetTime := t + ONE_HOUR |})).
Proof.
  unfold checkLimit, getTimeUntilReset.
  destruct (limits rl !! userId) as [l|] eqn:Hwin; [|done].
  destruct (now >? resetTime l) eqn:Hover; [done|].
  destruct (count l >=? maxRequestsPerHour rl) eqn:Hfull; [|done].
  intros [= <-]. rewrite Hwin.
  rewrite Z.gtb_ltb in Hover. apply Z.ltb_ge in Hover.
  rewrite Z.max_r by lia.
  split; [done|]. split; [lia|]. split.
  - intros t Ht. rewrite Z.gtb_ltb, (proj2 (Z.ltb_ge _ _)) by lia.
    by rewrite Hfull.
  - intros t Ht. by rewrite (proj2 (Z.gtb_gt _ _)) by lia.
Qed.

Lemma refused_until_reset_witness :
  checkLimit Samples.limiterFull "alice" 4000 = (false, Samples.limiterFull)
  /\ getTimeUntilReset Samples.limiterFull "alice" 4000 = 3597000
  /\ (forall t, t <= 4000 + getTimeUntilReset Samples.limiterFull "alice" 4000 ->
                checkLimit Samples.limiterFull "alice" t
                = (false, Samples.limiterFull)).
Proof.
  split; [reflexivity|]. split; [reflexivity|].
  exact (proj1 (proj2 (proj2 (refused_until_reset Samples.limiterFull
                                Samples.limiterFull "alice" 4000 eq_refl)))).
Defined.

Lemma cleanup_lookup rl now userId :
  limits (cleanup rl now) !! userId
  = match limits rl !! userId with
    | Some l => if decide (now > resetTime l) then None else Some l
    | None => None
    end.
Proof.
  unfold cleanup. simpl. rewrite map_lookup_filter.
  destruct (limits rl !! userId) as [l|]; simpl; [|done].
  destruct (decide (now > resetTime l)).
  - by rewrite option_guard_False by tauto.
  - by rewrite option_guard_True.
Qed.

(** X8. [cleanup] removes exactly the windows whose [resetTime] has passed
    and keeps every other window as it is; a window still running is never
    removed.  No later caller can tell that it ran: a [checkLimit] made at
    the time of the [cleanup] or later gets the same answer and leaves the
    caller with the same window as it would have without the [cleanup]. *)
Theorem cleanup_unnoticed rl now userId (t : Z) :
  now <= t ->
  limits (cleanup rl now) !! userId
  = match limits rl !! userId with
    | Some l => if decide (now > resetTime l) then None else Some l
    | None => None
    end
  /\ maxRequestsPerHour (cleanup rl now) = maxRequestsPerHour rl
  /\ fst (checkLimit (cleanup rl now) userId t) = fst (checkLimit rl userId t)
  /\ limits (snd (checkLimit (cleanup rl now) userId t)) !! userId
     = limits (snd (checkLimit rl userId t)) !! userId.
Proof.
  intros Hlater. split; [apply cleanup_lookup|]. split; [done|].
  unfold checkLimit. rewrite cleanup_lookup.
  change (maxRequestsPerHour (cleanup rl now)) with (maxRequestsPerHour rl).
  destruct (limits rl !! userId) as [l|] eqn:Hwin.
  - destruct (decide (now > resetTime l)) as [Hover|Hlive].
    + rewrite (proj2 (Z.gtb_gt _ _)) by lia.
      cbn [fst snd limits withLimit]. by rewrite !lookup_insert_eq.
    + destruct (t >? resetTime l);
        [cbn [fst snd limits withLimit]; by rewrite !lookup_insert_eq|].
      destruct (count l >=? maxRequestsPerHour rl); cbn [fst snd].
      * by rewrite cleanup_lookup, Hwin, decide_False.
      * cbn [limits withLimit]. by rewrite !lookup_insert_eq.
  - cbn [fst snd limits withLimit]. by rewrite !lookup_insert_eq.
Qed.

Lemma cleanup_unnoticed_witness :
  3601500 <= 3602000
  /\ limits (cleanup Samples.limiterFull 3601500) !! "alice" = None
  /\ fst (checkLimit (cleanup Samples.limiterFull 3601500) "alice" 3602000)
     = fst (checkLimit Samples.limiterFull "alice" 3602000).
Proof.
  split; [lia|]. split; [reflexivity|].
  destruct (cleanup_unnoticed Samples.limiterFull 3601500 "alice" 3602000)
    as (_ & _ & Hanswer & _); [lia|].
  exact Hanswer.
Defined.

(** X9. The users do not share a budget: calls made by other users, however
    many and whenever, leave a user's window as it was, and the answer to the
    user's next call is the one it would have been without them. *)
Theorem checkLimit_isolated rl (calls : list (string * Z)) userId (t : Z) :
  Forall (fun c => fst c ≠ userId) calls ->
  limits (checkAll rl calls) !! userId = limits rl !! userId
  /\ fst (checkLimit (checkAll rl calls) userId t) = fst (checkLimit rl userId t)
  /\ limits (snd (checkLimit (checkAll rl calls) userId t)) !! userId
     = limits (snd (checkLimit rl userId t)) !! userId.
Proof.
  intros Hothers.
  assert (limits (checkAll rl calls) !! userId = limits rl !! userId) as Hwin.
  { revert rl. induction Hothers as [|c calls Hc _ IH]; intros rl; [done|].
    change (checkAll rl (c :: calls))
      with (checkAll (snd (checkLimit rl (fst c) (snd c))) calls).
    rewrite IH. by apply checkLimit_other. }
  split; [done|].
  apply checkLimit_local; [done | apply checkAll_ceiling].
Qed.

Lemma checkLimit_isolated_witness :
  Forall (fun c => fst c ≠ "bob")
         [("alice", 1000); ("alice", 2000); ("alice", 3000)]
  /\ fst (checkLimit Samples.limiterFull "bob" 4000)
     = fst (checkLimit Samples.limiter3 "bob" 4000).
Proof.
  assert (Forall (fun c : string * Z => fst c ≠ "bob")
                 [("alice", 1000); ("alice", 2000); ("alice", 3000)]) as Hothers
    by (repeat constructor; discriminate).
  split; [exact Hothers|].
  exact (proj1 (proj2 (checkLimit_isolated Samples.limiter3
                         [("alice", 1000); ("alice", 2000); ("alice", 3000)]
                         "bob" 4000 Hothers))).
Defined.

End LimiterFacts.

(** ** The task queue: termination, order, retries *)

Section QueueMoreFacts.
Import Queue.
Implicit Types (q : QueueManager) (t : QueueTask).

Lemma withQueue_withQueue q l1 l2 (e1 e2 : list Event) :
  withQueue (withQueue q l1 e1) l2 e2 = withQueue q l2 (e1 ++ e2).
Proof. unfold withQueue. simpl. by rewrite app_assoc. Qed.

(** Every turn on a non-empty queue calls one operation and uses up at least
    one unit of the budget. *)
Lemma turn_calls_once q :
  queue q ≠ [] ->
  length (callOrder (events (turn q))) = S (length (callOrder (events q)))
  /\ (budget (turn q) < budget q)%nat.
Proof.
  intros Hq. split; [|by apply budget_turn].
  unfold turn. destruct (queue q) as [|t rest]; [done|].
  unfold callOrder.
  destruct (task t (retries t)); simpl.
  - rewrite omap_app, length_app. simpl. lia.
  - destruct (retries t <? maxRetries q)%nat; simpl;
      rewrite omap_app, length_app; simpl; lia.
Qed.

Lemma loop_calls_bounded (fuel : nat) q q' :
  loop fuel q = Some q' ->
  queue q' = []
  /\ maxRetries q' = maxRetries q
  /\ processing q' = processing q
  /\ (length (callOrder (events q')) <= length (callOrder (events q)) + budget q)%nat.
Proof.
  revert q. induction fuel as [|fuel IH]; intros q; simpl.
  - destruct (queue q) eqn:Hq; [|done]. intros [= <-]. repeat split; [done | lia].
  - destruct (queue q) as [|t rest] eqn:Hq.
    + intros [= <-]. repeat split; [done | lia].
    + intros Hloop. destruct (IH _ Hloop) as (Hempty & Hmax & Hproc & Hcalls).
      assert (queue q ≠ []) as Hne by (by rewrite Hq).
      destruct (turn_calls_once q Hne) as [Hone Hless].
      rewrite maxRetries_turn in Hmax.
      split; [done|]. split; [done|]. split; [|lia].
      rewrite Hproc. unfold turn. rewrite Hq.
      destruct (task t (retries t)); [done|].
      by destruct (retries t <? maxRetries q)%nat.
Qed.

Lemma budget_bound q :
  (budget q <= length (queue q) * S (maxRetries q))%nat.
Proof.
  unfold budget. induction (queue q) as [|t rest IH]; [simpl; lia|].
  cbn [map sum_list_with sum_list length]. unfold turnsLeft at 1.
  rewrite Nat.mul_succ_l. unfold Datatypes.id in *. lia.
Qed.

(** X10. [processQueue] comes to an end when every call of a queued
    operation settles, by resolving or by rejecting, and nothing is added to
    the queue while it runs, whichever of the calls resolve: on an idle
    manager it returns after at most [maxRetries + 1] calls per queued task
    (fewer for a task that had been retried already), with the queue empty
    and the manager idle again; on a manager that is already processing it
    returns at once and calls nothing. *)
Theorem processQueue_ends_with_empty_queue (fuel : nat) q :
  (budget q <= fuel)%nat ->
  (processing q = true -> processQueue fuel q = Some q)
  /\ (processing q = false ->
      exists q',
        processQueue fuel q = Some q'
        /\ queue q' = []
        /\ processing q' = false
        /\ maxRetries q' = maxRetries q
        /\ (length (callOrder (events q'))
            <= length (callOrder (events q)) + budget q)%nat
        /\ (budget q <= length (queue q) * S (maxRetries q))%nat).
Proof.
  intros Hfuel. split.
  - intros Hbusy. unfold processQueue. by rewrite Hbusy.
  - intros Hidle. unfold processQueue. rewrite Hidle. simpl.
    destruct (bool_decide (queue q = [])) eqn:Hempty.
    + apply bool_decide_eq_true in Hempty. exists q.
      split; [done|]. split; [done|]. split; [done|]. split; [done|].
      split; [lia | apply budget_bound].
    + destruct (loop_terminates fuel (withProcessing q true) Hfuel)
        as (q' & Hloop & _).
      rewrite Hloop. simpl. exists (withProcessing q' false).
      destruct (loop_calls_bounded _ _ _ Hloop) as (Hq' & Hmax & _ & Hcalls).
      split; [done|]. split; [done|]. split; [done|]. split; [done|].
      split; [exact Hcalls | apply budget_bound].
Qed.

Lemma processQueue_ends_with_empty_queue_witness :
  (budget Samples.queueABC <= 12)%nat
  /\ exists q',
       processQueue 12 Samples.queueABC = Some q'
       /\ queue q' = []
       /\ processing q' = false.
Proof.
  split; [by vm_compute|].
  destruct (processQueue_ends_with_empty_queue 12 Samples.queueABC)
    as [_ Hidle]; [by vm_compute|].
  destruct (Hidle eq_refl) as (q' & Hrun & Hempty & Hproc & _).
  by exists q'.
Defined.

Lemma withQueue_same q : queue q = [] -> withQueue q [] [] = q.
Proof. destruct q. simpl. intros ->. unfold withQueue. simpl. by rewrite app_nil_r. Qed.

Lemma loop_all_resolve (l : list QueueTask) q (fuel : nat) :
  queue q = l ->
  Forall (fun t => task t (retries t) = true) l ->
  (length l <= fuel)%nat ->
  loop fuel q = Some (withQueue q [] (map (fun t => Called (id t) true) l)).
Proof.
  revert q fuel. induction l as [|t rest IH]; intros q fuel Hq Hall Hfuel.
  - rewrite loop_empty by done. simpl. by rewrite withQueue_same.
  - apply Forall_cons in Hall as [Ht Hrest].
    destruct fuel as [|fuel]; [simpl in Hfuel; lia|].
    rewrite (loop_resolves fuel q t rest Hq Ht).
    rewrite (IH (withQueue q rest [Called (id t) true]) fuel eq_refl Hrest)
      by (simpl in Hfuel; lia).
    by rewrite withQueue_withQueue.
Qed.

(** X11. When the first call of every queued operation resolves,
    [processQueue] on an idle manager calls each operation exactly once, in
    the order the tasks were queued, retries nothing, gives up nothing, and
    leaves the queue empty and the manager idle. *)
Theorem processQueue_first_in_first_out (fuel : nat) q :
  processing q = false ->
  Forall (fun t => task t (retries t) = true) (queue q) ->
  (length (queue q) <= fuel)%nat ->
  exists q',
    processQueue fuel q = Some q'
    /\ queue q' = []
    /\ processing q' = false
    /\ events q' = events q ++ map (fun t => Called (id t) true) (queue q)
    /\ callOrder (map (fun t => Called (id t) true) (queue q))
       = map id (queue q).
Proof.
  intros Hidle Hall Hfuel.
  assert (callOrder (map (fun t => Called (id t) true) (queue q))
          = map id (queue q)) as Horder.
  { unfold callOrder. induction (queue q) as [|t rest IH]; [done|].
    apply Forall_cons in Hall as [_ Hall]. simpl in *.
    f_equal. apply IH; [done | lia]. }
  destruct (queue q) as [|t rest] eqn:Hq.
  - exists q. unfold processQueue. rewrite Hidle, Hq. simpl.
    rewrite app_nil_r. by repeat split.
  - rewrite processQueue_idle by (done || by rewrite Hq).
    rewrite (loop_all_resolve (t :: rest) (withProcessing q true) fuel Hq Hall Hfuel).
    simpl. eexists. split; [reflexivity|]. simpl. by repeat split.
Qed.

Lemma processQueue_first_in_first_out_witness :
  exists q',
    processQueue 2
      (push (push create "B" Samples.succeeds) "C" Samples.succeeds) = Some q'
    /\ queue q' = []
    /\ events q' = [Called "B" true; Called "C" true].
Proof.
  destruct (processQueue_first_in_first_out 2
              (push (push create "B" Samples.succeeds) "C" Samples.succeeds))
    as (q' & Hrun & Hempty & _ & Hevents & _).
  - reflexivity.
  - by repeat constructor.
  - simpl. lia.
  - exists q'. by repeat split.
Defined.

Lemma loop_step (fuel : nat) q :
  queue q ≠ [] -> loop (S fuel) q = loop fuel (turn q).
Proof. intros Hq. simpl. by destruct (queue q). Qed.

(** X12. A task added while the loop is busy is run after everything that
    was queued before it: running the loop on the queue with the task pushed
    gives what is obtained by first letting the loop empty the queue as it
    was and then running it on the task alone. *)
Theorem push_while_processing (fuel fuel' : nat) q q1 q2 taskId (op : nat -> bool) :
  queue q ≠ [] ->
  loop fuel q = Some q1 ->
  loop fuel' (push q1 taskId op) = Some q2 ->
  loop (fuel + fuel') (push q taskId op) = Some q2.
Proof.
  revert q. induction fuel as [|fuel IH]; intros q Hq Hloop Hnext.
  - simpl in Hloop. by destruct (queue q).
  - rewrite (loop_step _ q Hq) in Hloop.
    change (S fuel + fuel')%nat with (S (fuel + fuel')).
    rewrite loop_step by (unfold push; simpl; by destruct (queue q)).
    rewrite turn_push by done.
    destruct (queue (turn q)) as [|t' rest'] eqn:Hturn.
    + rewrite loop_empty in Hloop by done. injection Hloop as <-.
      apply (loop_more_fuel fuel'); [done | lia].
    + apply IH; [by rewrite Hturn | done | done].
Qed.

Lemma push_while_processing_witness :
  queue (push create "A" Samples.alwaysFails) ≠ []
  /\ exists q1 q2,
       loop 4 (push create "A" Samples.alwaysFails) = Some q1
       /\ loop 1 (push q1 "B" Samples.succeeds) = Some q2
       /\ loop (4 + 1) (push (push create "A" Samples.alwaysFails)
                              "B" Samples.succeeds) = Some q2.
Proof.
  split; [done|].
  eexists _, _. split; [reflexivity|]. split; [reflexivity|].
  eapply (push_while_processing 4 1 (push create "A" Samples.alwaysFails));
    [done | reflexivity | reflexivity].
Defined.

(** The head task is called and rejects [count] times, with retries left. *)
Lemma loop_head_rejects (count : nat) (fuel : nat) q t rest :
  queue q = t :: rest ->
  (forall i, (i < count)%nat -> task t (retries t + i) = false) ->
  (retries t + count <= maxRetries q)%nat ->
  loop (count + fuel) q
  = loop fuel
      (withQueue q
         ({| id := id t; task := task t; retries := retries t + count |} :: rest)
         (retryEvents (id t) (retries t) count)).
Proof.
  revert q t. induction count as [|count IH]; intros q t Hq Hfails Hroom.
  - simpl. f_equal. destruct q as [qu pr mx ev], t as [i op r].
    simpl in *. subst qu. unfold withQueue. simpl.
    by rewrite app_nil_r, Nat.add_0_r.
  - change (S count + fuel)%nat with (S (count + fuel)).
    rewrite (loop_retries _ q t rest Hq);
      [| rewrite <- (Nat.add_0_r (retries t)); apply Hfails; lia | lia].
    rewrite (IH (withQueue q (retried t :: rest)
                   [Called (id t) false; Retrying (id t) (S (retries t))])
                (retried t) eq_refl).
    + rewrite withQueue_withQueue. simpl.
      by replace (S (retries t + count)) with (retries t + S count)%nat by lia.
    + intros i Hi. simpl.
      replace (S (retries t + i)) with (retries t + S i)%nat by lia.
      apply Hfails. lia.
    + simpl. lia.
Qed.

(** X13. A task whose operation rejects [k] times and then resolves, with
    [k] at most [maxRetries], is not given up: the loop calls it [k + 1]
    times in a row, logging a retry after each rejection, removes it once it
    has resolved, and goes on with the rest of the queue. *)
Theorem loop_retries_until_resolved (k fuel : nat) q t rest :
  queue q = t :: rest ->
  retries t = 0%nat ->
  (forall i, (i < k)%nat -> task t i = false) ->
  task t k = true ->
  (k <= maxRetries q)%nat ->
  loop (S k + fuel) q
  = loop fuel
      (withQueue q rest (retryEvents (id t) 0 k ++ [Called (id t) true])).
Proof.
  intros Hq Hnew Hfails Hok Hroom.
  replace (S k + fuel)%nat with (k + S fuel)%nat by lia.
  rewrite (loop_head_rejects k (S fuel) q t rest Hq);
    [| intros i Hi; rewrite Hnew; by apply Hfails | rewrite Hnew; simpl; lia].
  erewrite loop_resolves; [|reflexivity|simpl; by rewrite Hnew].
  rewrite withQueue_withQueue. simpl. by rewrite Hnew.
Qed.

Lemma loop_retries_until_resolved_witness :
  loop (S 2 + 0) (push create "flaky" (fun n => bool_decide (2 <= n)%nat))
  = loop 0 (withQueue (push create "flaky" (fun n => bool_decide (2 <= n)%nat)) []
              [Called "flaky" false; Retrying "flaky" 1;
               Called "flaky" false; Retrying "flaky" 2;
               Called "flaky" true]).
Proof.
  apply (loop_retries_until_resolved 2 0
           (push create "flaky" (fun n => bool_decide (2 <= n)%nat))
           {| id := "flaky"; task := fun n => bool_decide (2 <= n)%nat;
              retries := 0 |} []).
  - reflexivity.
  - reflexivity.
  - intros i Hi. apply bool_decide_eq_false. lia.
  - reflexivity.
  - simpl. lia.
Defined.

(** X14. A task whose operation rejects every time is called exactly
    [maxRetries + 1] times, with a retry logged after each call but the
    last; then it is given up, nothing is thrown, and the loop goes on with
    the rest of the queue. *)
Theorem loop_gives_up_after_maxRetries (fuel : nat) q t rest :
  queue q = t :: rest ->
  retries t = 0%nat ->
  (forall i, task t i = false) ->
  loop (S (maxRetries q) + fuel) q
  = loop fuel
      (withQueue q rest
         (retryEvents (id t) 0 (maxRetries q)
            ++ [Called (id t) false; GaveUp (id t)]))
  /\ calls (id t) (retryEvents (id t) 0 (maxRetries q)
                     ++ [Called (id t) false; GaveUp (id t)])
     = S (maxRetries q).
Proof.
  intros Hq Hnew Hfails. split.
  - replace (S (maxRetries q) + fuel)%nat with (maxRetries q + S fuel)%nat by lia.
    rewrite (loop_head_rejects (maxRetries q) (S fuel) q t rest Hq);
      [| intros i Hi; by apply Hfails | rewrite Hnew; simpl; lia].
    erewrite loop_gives_up; [|reflexivity|apply Hfails|simpl; lia].
    rewrite withQueue_withQueue. simpl. by rewrite Hnew.
  - unfold calls, callOrder. rewrite omap_app. simpl.
    rewrite filter_app, length_app. simpl.
    rewrite filter_cons_True by done. simpl.
    assert (forall from count,
              length (filter (fun i => i = id t)
                        (omap (fun e => match e with
                                        | Called i _ => Some i
                                        | _ => None
                                        end)
                              (retryEvents (id t) from count))) = count) as Hcount.
    { intros from count. revert from.
      induction count as [|count IH]; intros from; [done|].
      simpl. rewrite filter_cons_True by done. simpl. by rewrite IH. }
    rewrite Hcount. lia.
Qed.

Lemma loop_gives_up_after_maxRetries_witness :
  loop (S 3 + 0) (push create "A" Samples.alwaysFails)
  = loop 0 (withQueue (push create "A" Samples.alwaysFails) []
              [Called "A" false; Retrying "A" 1;
               Called "A" false; Retrying "A" 2;
               Called "A" false; Retrying "A" 3;
               Called "A" false; GaveUp "A"]).
Proof.
  exact (proj1 (loop_gives_up_after_maxRetries 0
                  (push create "A" Samples.alwaysFails)
                  {| id := "A"; task := Samples.alwaysFails; retries := 0 |} []
                  eq_refl eq_refl (fun i => eq_refl))).
Defined.

End QueueMoreFacts.

(** ** The retry engine *)

Section RetryFacts.
Import Retry.
Context {T : Type}.
Implicit Types (operation : nat -> result T) (options : RetryOptions)
  (messages : nat -> string).

Lemma waits_notify options message (attempt : nat) (evs : list Event) :
  waits (notify options message attempt ++ evs) = waits evs.
Proof. unfold notify. by destruct (onRetry options). Qed.

Lemma attempts_notify options message (attempt : nat) (evs : list Event) :
  attempts (notify options message attempt ++ evs) = attempts evs.
Proof. unfold notify. by destruct (onRetry options). Qed.

Lemma waits_rejections options messages (attempt count : nat) :
  waits (rejections options messages attempt count)
  = map (delayTime options) (seq attempt count).
Proof.
  revert attempt. induction count as [|count IH]; intros attempt; [done|].
  simpl. unfold waits in *. simpl.
  change (omap ?f (notify ?o ?m ?a ++ ?l)) with (waits (notify o m a ++ l)).
  rewrite waits_notify. unfold waits. simpl. by rewrite IH.
Qed.

Lemma attempts_rejections options messages (attempt count : nat) :
  attempts (rejections options messages attempt count) = seq attempt count.
Proof.
  revert attempt. induction count as [|count IH]; intros attempt; [done|].
  simpl. unfold attempts in *. simpl.
  change (omap ?f (notify ?o ?m ?a ++ ?l)) with (attempts (notify o m a ++ l)).
  rewrite attempts_notify. unfold attempts. simpl. by rewrite IH.
Qed.

(** [count] attempts that reject, none of them the last one allowed. *)
Lemma retryFrom_rejections (count remaining attempt : nat) operation options
  messages (lastError : string) :
  (1 <= attempt)%nat ->
  (forall i, (i < count)%nat ->
             operation (attempt - 1 + i)%nat = Throw (messages (attempt - 1 + i)%nat)) ->
  Z.of_nat (attempt + count) <= maxAttempts options ->
  retryFrom operation options (count + remaining) attempt lastError
  = (fst (retryFrom operation options remaining (attempt + count)
            (match count with
             | O => lastError
             | S _ => messages (attempt + count - 2)%nat
             end)),
     rejections options messages attempt count
       ++ snd (retryFrom operation options remaining (attempt + count)
                 (match count with
                  | O => lastError
                  | S _ => messages (attempt + count - 2)%nat
                  end))).
Proof.
  revert attempt lastError.
  induction count as [|count IH]; intros attempt lastError Hpos Hfails Hroom.
  - simpl. rewrite Nat.add_0_r. by destruct (retryFrom _ _ _ _ _).
  - simpl. pose proof (Hfails 0%nat ltac:(lia)) as Hfirst.
    rewrite Nat.add_0_r in Hfirst. rewrite Hfirst.
    rewrite (proj2 (Z.eqb_neq _ _)) by lia.
    rewrite (IH (S attempt) (messages (attempt - 1)%nat)); [|lia| |lia].
    + replace (S attempt + count)%nat with (attempt + S count)%nat by lia.
      replace (match count with
               | O => messages (attempt - 1)%nat
               | S _ => messages (attempt + S count - 2)%nat
               end) with (messages (attempt + S count - 2)%nat).
      * simpl. by rewrite <- app_assoc.
      * destruct count; [f_equal; lia | done].
    + intros i Hi. replace (S attempt - 1 + i)%nat with (attempt - 1 + S i)%nat by lia.
      apply Hfails. lia.
Qed.

Lemma retryFrom_last operation options (attempt remaining : nat)
  (message lastError : string) :
  Z.of_nat attempt = maxAttempts options ->
  operation (attempt - 1)%nat = Throw message ->
  retryFrom operation options (S remaining) attempt lastError
  = (Throw message, [Called attempt]).
Proof. intros Hlast Hfail. simpl. rewrite Hfail. by rewrite (proj2 (Z.eqb_eq _ _)). Qed.

Lemma retryFrom_resolved operation options (attempt remaining : nat)
  (value : T) (lastError : string) :
  operation (attempt - 1)%nat = Ok value ->
  retryFrom operation options (S remaining) attempt lastError
  = (Ok value, [Called attempt]).
Proof. intros Hok. simpl. by rewrite Hok. Qed.

(** X15. When all [maxAttempts] calls of the operation reject ([maxAttempts]
    at least 1), [retry] throws the error of the last call.  It has then
    called the operation [maxAttempts] times, has waited after each call
    but the last, and notified the callback before each wait; the wait
    after attempt [a] is [delay * 2^(a-1)] with [backoff] and [delay]
    without. *)
Theorem retry_exhausted (n : nat) operation options messages :
  maxAttempts options = Z.of_nat (S n) ->
  (forall i, (i <= n)%nat -> operation i = Throw (messages i)) ->
  retry operation options
  = (Throw (messages n), rejections options messages 1 n ++ [Called (S n)])
  /\ attempts (snd (retry operation options)) = seq 1 (S n)
  /\ waits (snd (retry operation options))
     = map (fun a => if backoff options
                     then delay options * 2 ^ (Z.of_nat a - 1)
                     else delay options) (seq 1 n).
Proof.
  intros Hmax Hfails.
  assert (retry operation options
          = (Throw (messages n), rejections options messages 1 n ++ [Called (S n)]))
    as Hrun.
  { unfold retry. rewrite Hmax, Nat2Z.id.
    replace (S n) with (n + 1)%nat by lia.
    rewrite (retryFrom_rejections n 1 1 operation options messages); [|lia| |lia].
    - rewrite (retryFrom_last operation options (1 + n) 0 (messages n)).
      + cbn [fst snd]. by replace (n + 1)%nat with (S n) by lia.
      + lia.
      + replace (1 + n - 1)%nat with n by lia. apply Hfails. lia.
    - intros i Hi. simpl. apply Hfails. lia. }
  rewrite Hrun. split; [done|]. simpl. split.
  - unfold attempts. rewrite omap_app. simpl.
    change (omap _ (rejections ?o ?m ?a ?c)) with (attempts (rejections o m a c)).
    rewrite attempts_rejections.
    change (1%nat :: seq 2 n) with (seq 1 (S n)). by rewrite (seq_S n 1).
  - unfold waits. rewrite omap_app. simpl. rewrite app_nil_r.
    change (omap _ (rejections ?o ?m ?a ?c)) with (waits (rejections o m a c)).
    by rewrite waits_rejections.
Qed.

(** X16. When the operation rejects [k] times and then resolves, and
    [maxAttempts] is more than [k], [retry] returns the value of call
    [k + 1]: it has called the operation [k + 1] times, waited after each
    rejection ([delay * 2^(a-1)] after attempt [a] with [backoff], [delay]
    without), and makes no further call. *)
Theorem retry_first_success (k : nat) operation options messages (value : T) :
  Z.of_nat (S k) <= maxAttempts options ->
  (forall i, (i < k)%nat -> operation i = Throw (messages i)) ->
  operation k = Ok value ->
  retry operation options
  = (Ok value, rejections options messages 1 k ++ [Called (S k)])
  /\ attempts (snd (retry operation options)) = seq 1 (S k)
  /\ waits (snd (retry operation options))
     = map (fun a => if backoff options
                     then delay options * 2 ^ (Z.of_nat a - 1)
                     else delay options) (seq 1 k).
Proof.
  intros Hroom Hfails Hok.
  assert (retry operation options
          = (Ok value, rejections options messages 1 k ++ [Called (S k)])) as Hrun.
  { unfold retry.
    replace (Z.to_nat (maxAttempts options))
      with (k + S (Z.to_nat (maxAttempts options) - S k))%nat by lia.
    rewrite (retryFrom_rejections k _ 1 operation options messages); [|lia| |lia].
    - rewrite (retryFrom_resolved operation options (1 + k) _ value).
      + done.
      + by replace (1 + k - 1)%nat with k by lia.
    - intros i Hi. simpl. by apply Hfails. }
  rewrite Hrun. split; [done|]. simpl. split.
  - unfold attempts. rewrite omap_app. simpl.
    change (omap _ (rejections ?o ?m ?a ?c)) with (attempts (rejections o m a c)).
    rewrite attempts_rejections.
    change (1%nat :: seq 2 k) with (seq 1 (S k)). by rewrite (seq_S k 1).
  - unfold waits. rewrite omap_app. simpl. rewrite app_nil_r.
    change (omap _ (rejections ?o ?m ?a ?c)) with (waits (rejections o m a c)).
    by rewrite waits_rejections.
Qed.

Lemma attempts_step options message (attempt : nat) (ms : Z) (evs : list Event) :
  attempts (Called attempt :: notify options message attempt ++ Slept ms :: evs)
  = attempt :: attempts evs.
Proof.
  change (attempts (Called attempt :: ?l)) with (attempt :: attempts l).
  by rewrite attempts_notify.
Qed.

Lemma waits_step options message (attempt : nat) (ms : Z) (evs : list Event) :
  waits (Called attempt :: notify options message attempt ++ Slept ms :: evs)
  = ms :: waits evs.
Proof.
  change (waits (Called attempt :: ?l)) with (waits l).
  by rewrite waits_notify.
Qed.

Lemma retryFrom_bounded (remaining attempt : nat) operation options
  (lastError : string) :
  (1 <= remaining)%nat ->
  Z.of_nat (attempt + remaining) = maxAttempts options + 1 ->
  (1 <= length (attempts (snd (retryFrom operation options remaining attempt
                                 lastError))) <= remaining)%nat
  /\ S (length (waits (snd (retryFrom operation options remaining attempt
                              lastError))))
     = length (attempts (snd (retryFrom operation options remaining attempt
                                lastError))).
Proof.
  revert attempt lastError.
  induction remaining as [|remaining IH]; intros attempt lastError Hpos Hend; [lia|].
  simpl. destruct (operation (attempt - 1)%nat) as [value|message].
  - simpl. lia.
  - destruct (Z.of_nat attempt =? maxAttempts options) eqn:Hlast.
    + simpl. lia.
    + apply Z.eqb_neq in Hlast.
      destruct (retryFrom operation options remaining (S attempt) message)
        as [outcome evs] eqn:Hrest.
      assert (1 <= remaining)%nat as Hmore by lia.
      destruct (IH (S attempt) message Hmore ltac:(lia)) as [Hcalls Hwaits].
      rewrite Hrest in Hcalls, Hwaits. simpl in Hcalls, Hwaits.
      cbn [snd]. rewrite attempts_step, waits_step. simpl. lia.
Qed.

(** X17. [retry] calls the operation at most [maxAttempts] times, whatever
    the operation does, and waits exactly once between two calls.  With
    [maxAttempts] below 1 the operation is not called at all and [retry]
    throws "No attempts made". *)
Theorem retry_attempts_bounded operation options :
  (length (attempts (snd (retry operation options)))
   <= Z.to_nat (maxAttempts options))%nat
  /\ length (waits (snd (retry operation options)))
     = pred (length (attempts (snd (retry operation options))))
  /\ (maxAttempts options < 1 ->
      retry operation options = (Throw "No attempts made", [])).
Proof.
  unfold retry.
  destruct (Z.to_nat (maxAttempts options)) as [|remaining] eqn:Hmax.
  - simpl. split; [lia|]. split; [done|]. done.
  - destruct (retryFrom_bounded (S remaining) 1 operation options
                "No attempts made") as [Hcalls Hwaits]; [lia | lia |].
    split; [lia|]. split; [lia|]. intros Hnone. lia.
Qed.

(** A value [retryWithConditionFrom] returns meets the condition. *)
Lemma retryWithConditionFrom_met (remaining attempt : nat) operation
  (condition : T -> bool) options (lastError : string) (value : T) :
  fst (retryWithConditionFrom operation condition options remaining attempt
         lastError) = Ok value ->
  condition value = true.
Proof.
  revert attempt lastError.
  induction remaining as [|remaining IH]; intros attempt lastError; [done|].
  simpl. destruct (operation (attempt - 1)%nat) as [v|message].
  - destruct (condition v) eqn:Hv.
    + simpl. by intros [= <-].
    + destruct (Z.of_nat attempt =? maxAttempts options); [done|].
      destruct (retryWithConditionFrom operation condition options remaining
                  (S attempt) lastError) as [outcome evs] eqn:Hrest.
      simpl. intros ->. apply (IH (S attempt) lastError). by rewrite Hrest.
  - destruct (Z.of_nat attempt =? maxAttempts options); [done|].
    destruct (retryWithConditionFrom operation condition options remaining
                (S attempt) message) as [outcome evs] eqn:Hrest.
    simpl. intros ->. apply (IH (S attempt) message). by rewrite Hrest.
Qed.

(** [count] results in a row that fail the condition, none on the last
    attempt allowed. *)
Lemma retryWithConditionFrom_unmet (count remaining attempt : nat) operation
  (condition : T -> bool) options (values : nat -> T) (lastError : string) :
  (1 <= attempt)%nat ->
  (forall i, (i < count)%nat ->
             operation (attempt - 1 + i)%nat = Ok (values (attempt - 1 + i)%nat)
             /\ condition (values (attempt - 1 + i)%nat) = false) ->
  Z.of_nat (attempt + count) <= maxAttempts options ->
  retryWithConditionFrom operation condition options (count + remaining)
    attempt lastError
  = (fst (retryWithConditionFrom operation condition options remaining
            (attempt + count) lastError),
     unmet options attempt count
       ++ snd (retryWithConditionFrom operation condition options remaining
                 (attempt + count) lastError)).
Proof.
  revert attempt.
  induction count as [|count IH]; intros attempt Hpos Hfails Hroom.
  - simpl. rewrite Nat.add_0_r. by destruct (retryWithConditionFrom _ _ _ _ _ _).
  - simpl. destruct (Hfails 0%nat ltac:(lia)) as [Hvalue Hunmet].
    rewrite Nat.add_0_r in Hvalue, Hunmet. rewrite Hvalue, Hunmet.
    rewrite (proj2 (Z.eqb_neq _ _)) by lia.
    rewrite (IH (S attempt)); [|lia| |lia].
    + replace (S attempt + count)%nat with (attempt + S count)%nat by lia.
      simpl. by rewrite <- app_assoc.
    + intros i Hi. replace (S attempt - 1 + i)%nat with (attempt - 1 + S i)%nat by lia.
      apply Hfails. lia.
Qed.

Lemma retryWithConditionFrom_last_unmet operation (condition : T -> bool)
  options (attempt remaining : nat) (value : T) (lastError : string) :
  Z.of_nat attempt = maxAttempts options ->
  operation (attempt - 1)%nat = Ok value ->
  condition value = false ->
  retryWithConditionFrom operation condition options (S remaining) attempt
    lastError
  = (Throw "Condition not met after all attempts", [Called attempt]).
Proof.
  intros Hlast Hvalue Hunmet. simpl. rewrite Hvalue, Hunmet.
  by rewrite (proj2 (Z.eqb_eq _ _)).
Qed.

(** X18. [retryWithCondition] never returns a result that fails the
    condition.  When the operation resolves every time but no result meets
    the condition, it calls the operation [maxAttempts] times, waiting and
    notifying "Condition not met" after each call but the last, and then
    throws "Condition not met after all attempts". *)
Theorem retryWithCondition_only_met_results operation (condition : T -> bool)
  options :
  (forall value, fst (retryWithCondition operation condition options) = Ok value ->
                 condition value = true)
  /\ (forall (n : nat) (values : nat -> T),
        maxAttempts options = Z.of_nat (S n) ->
        (forall i, (i <= n)%nat ->
                   operation i = Ok (values i) /\ condition (values i) = false) ->
        retryWithCondition operation condition options
        = (Throw "Condition not met after all attempts",
           unmet options 1 n ++ [Called (S n)])).
Proof.
  split.
  - intros value. unfold retryWithCondition. apply retryWithConditionFrom_met.
  - intros n values Hmax Hunmet. unfold retryWithCondition.
    rewrite Hmax, Nat2Z.id. replace (S n) with (n + 1)%nat by lia.
    rewrite (retryWithConditionFrom_unmet n 1 1 operation condition options values);
      [|lia| |lia].
    + destruct (Hunmet n ltac:(lia)) as [Hvalue Hcond].
      rewrite (retryWithConditionFrom_last_unmet operation condition options
                 (1 + n) 0 (values n)).
      * cbn [fst snd]. by replace (n + 1)%nat with (S n) by lia.
      * lia.
      * by replace (1 + n - 1)%nat with n by lia.
      * done.
    + intros i Hi. simpl. apply Hunmet. lia.
Qed.

End RetryFacts.

Section RetryWitnesses.
Import Retry.

Lemma retry_exhausted_witness :
  retry (fun _ : nat => @Throw nat "down") defaultOptions
  = (Throw "down",
     [Called 1; Slept 1000; Called 2; Slept 2000; Called 3])
  /\ waits (snd (retry (fun _ : nat => @Throw nat "down") defaultOptions))
     = [1000; 2000].
Proof.
  destruct (retry_exhausted 2 (fun _ : nat => @Throw nat "down") defaultOptions
              (fun _ => "down") eq_refl (fun i _ => eq_refl))
    as (Hrun & _ & Hwaits).
  split; [exact Hrun | exact Hwaits].
Defined.

Lemma retry_first_success_witness :
  retry (fun i : nat => if decide (i = 1%nat) then Ok 42%nat else Throw "down")
        defaultOptions
  = (Ok 42%nat, [Called 1; Slept 1000; Called 2]).
Proof.
  refine (proj1 (retry_first_success 1
            (fun i : nat => if decide (i = 1%nat) then Ok 42%nat else Throw "down")
            defaultOptions (fun _ => "down") 42%nat _ _ eq_refl)).
  - simpl. lia.
  - intros i Hi. replace i with 0%nat by lia. reflexivity.
Defined.

Lemma retry_attempts_bounded_witness :
  {| maxAttempts := 0; delay := 1000; backoff := true; onRetry := false |}.(maxAttempts) < 1
  /\ retry (fun _ : nat => Ok 7%nat)
           {| maxAttempts := 0; delay := 1000; backoff := true; onRetry := false |}
     = (Throw "No attempts made", []).
Proof.
  split; [simpl; lia|].
  apply (retry_attempts_bounded (fun _ : nat => Ok 7%nat)
           {| maxAttempts := 0; delay := 1000; backoff := true; onRetry := false |}).
  simpl. lia.
Defined.

Lemma retryWithCondition_only_met_results_witness :
  retryWithCondition (fun i : nat => Ok i) (fun v : nat => (5 <=? v)%nat)
    {| maxAttempts := 2; delay := 500; backoff := false; onRetry := true |}
  = (Throw "Condition not met after all attempts",
     [Called 1; Notified "Condition not met" 1; Slept 500; Called 2]).
Proof.
  refine (proj2 (retryWithCondition_only_met_results
                   (fun i : nat => Ok i) (fun v : nat => (5 <=? v)%nat)
                   {| maxAttempts := 2; delay := 500; backoff := false;
                      onRetry := true |})
                1%nat (fun i => i) eq_refl _).
  intros i Hi. split; [reflexivity|]. apply Nat.leb_gt. lia.
Defined.

End RetryWitnesses.

(** ** The payment ledger: order ids, proofs by transaction, framing *)

Section LedgerFacts.
Import Payment.
Implicit Types (ps : PaymentService) (p payment : PaymentDetails)
  (oid : string) (env : Env) (txHash : option string).

(** Dividing by an expected amount of zero gives [Infinity] or [NaN]: the
    tolerance test fails. *)
Lemma withinTolerance_zero (a : Number.number) :
  withinTolerance a (SpecFloat.S754_zero false) = false.
Proof. by destruct a as [[|]|[|]| |[|] m e]. Qed.

(** A value that is the expected amount passes the test: the difference is
    zero. *)
Lemma withinTolerance_exact (sign : bool) (m : positive) (e : Z) :
  withinTolerance (SpecFloat.S754_finite sign m e) (SpecFloat.S754_finite sign m e)
  = true.
Proof.
  unfold withinTolerance, Number.sub, SpecFloat.SFsub, SpecFloat.shl_align.
  rewrite Z.min_id, Z.sub_diag. by destruct sign.
Qed.

(** X19. The check by transaction hash never throws, and answers [true]
    exactly when the chain knows the transaction, its destination is the
    payment's ETH address (letter case aside), and the tolerance test
    [Math.abs(parseFloat(amount) - expectedAmount) / expectedAmount <= 0.05]
    holds as the code computes it, on doubles, the expected amount being
    the payment's amount divided by the ether price of 2000.  A payment of
    amount 0 is never accepted, and a transaction whose value is the
    expected amount always is.  For the amount of 10 that every payment
    request is made with, the expected amount is 0.005 ether, and the values
    that are exactly 5% off, 0.00475 and 0.00525 ether, are refused: the
    quotient computed for them is 0.050000000000000044. *)
Theorem verifyEthereumTransaction_accepts_iff env (h : string) payment :
  (verifyEthereumTransaction env h payment = true
   <-> exists tx dest,
         getTransaction env h = Ok (Some tx)
         /\ to tx = Some dest
         /\ toLowerCase dest = toLowerCase (Storage.eth (walletAddresses payment))
         /\ withinTolerance (Number.ofQ (value tx)) (expectedAmount payment)
            = true)
  /\ (Qnum (amount payment) = 0 ->
      verifyEthereumTransaction env h payment = false)
  /\ (forall tx dest sign m e,
        getTransaction env h = Ok (Some tx) ->
        to tx = Some dest ->
        toLowerCase dest = toLowerCase (Storage.eth (walletAddresses payment)) ->
        expectedAmount payment = SpecFloat.S754_finite sign m e ->
        Number.ofQ (value tx) = expectedAmount payment ->
        verifyEthereumTransaction env h payment = true)
  /\ (amount payment = 10%Q ->
      expectedAmount payment = Number.ofQ (5 # 1000)
      /\ withinTolerance (Number.ofQ (475 # 100000)) (expectedAmount payment)
         = false
      /\ withinTolerance (Number.ofQ (525 # 100000)) (expectedAmount payment)
         = false
      /\ Number.div
           (Number.abs (Number.sub (Number.ofQ (525 # 100000))
                                   (expectedAmount payment)))
           (expectedAmount payment)
         = SpecFloat.S754_finite false 7205759403792800 (-57)
      /\ Number.ofQ (5 # 100)
         = SpecFloat.S754_finite false 7205759403792794 (-57)).
Proof.
  split.
  { unfold verifyEthereumTransaction. split.
    - destruct (getTransaction env h) as [[tx|]|]; [|done..].
      destruct (to tx) as [dest|] eqn:Hto; [|done].
      destruct (decide (toLowerCase dest = toLowerCase _)) as [Hdest|]; [|done].
      intros Hok. exists tx, dest. by repeat split.
    - intros (tx & dest & -> & -> & Hdest & Hok).
      by rewrite decide_True. }
  split.
  { intros Hzero. unfold verifyEthereumTransaction.
    destruct (getTransaction env h) as [[tx|]|]; [|done..].
    destruct (to tx) as [dest|]; [|done].
    destruct (decide (toLowerCase dest = toLowerCase _)); [|done].
    unfold expectedAmount, Number.ofQ at 2. rewrite Hzero.
    apply withinTolerance_zero. }
  split.
  { intros tx dest sign m e Htx Hto Hdest Hfinite Hvalue.
    rewrite (verifyEthereumTransaction_tolerance env h payment tx dest Htx Hto Hdest).
    rewrite Hvalue, Hfinite. apply withinTolerance_exact. }
  intros Hten. unfold expectedAmount. rewrite Hten.
  repeat split; by vm_compute.
Qed.

Lemma verifyEthereumTransaction_accepts_iff_witness :
  amount (fst (createPaymentRequest Samples.ledger0 "user1234" "t1" 1000)) = 10%Q
  /\ verifyEthereumTransaction (Samples.envPaid 2000) "0xabc"
       (fst (createPaymentRequest Samples.ledger0 "user1234" "t1" 1000)) = true
  /\ withinTolerance (Number.ofQ (525 # 100000))
       (expectedAmount
          (fst (createPaymentRequest Samples.ledger0 "user1234" "t1" 1000)))
     = false.
Proof.
  split; [reflexivity|].
  destruct (verifyEthereumTransaction_accepts_iff (Samples.envPaid 2000) "0xabc"
              (fst (createPaymentRequest Samples.ledger0 "user1234" "t1" 1000)))
    as (_ & _ & Hexact & Hten).
  split.
  - apply (Hexact {| to := Some "0xb07"; value := 5 # 1000 |} "0xb07"
             false 5764607523034235%positive (-60));
      [reflexivity | reflexivity | reflexivity | by vm_compute | by vm_compute].
  - destruct (Hten eq_refl) as (_ & _ & Hhigh & _). exact Hhigh.
Defined.

(** X20. The order id is made of the clock reading and the last four
    characters of the user id only.  Two payment requests made within the
    same millisecond for user ids that end in the same four characters get
    the same order id, and the second takes the place of the first in the
    ledger: the first payment can no longer be found, and the ledger is as
    if only the second request had been made. *)
Theorem createPaymentRequest_collision ps (user1 tweet1 user2 tweet2 : string)
  (now : Z) :
  sliceLast 4 user1 = sliceLast 4 user2 ->
  orderId (fst (createPaymentRequest ps user1 tweet1 now))
  = orderId (fst (createPaymentRequest
                    (snd (createPaymentRequest ps user1 tweet1 now))
                    user2 tweet2 now))
  /\ payments (snd (createPaymentRequest
                      (snd (createPaymentRequest ps user1 tweet1 now))
                      user2 tweet2 now))
     = payments (snd (createPaymentRequest ps user2 tweet2 now))
  /\ payments (snd (createPaymentRequest
                      (snd (createPaymentRequest ps user1 tweet1 now))
                      user2 tweet2 now))
       !! orderId (fst (createPaymentRequest ps user1 tweet1 now))
     = Some (fst (createPaymentRequest ps user2 tweet2 now)).
Proof.
  intros Hsame. unfold createPaymentRequest. simpl. rewrite Hsame.
  split; [done|]. split.
  - by rewrite insert_insert_eq.
  - by rewrite lookup_insert_eq.
Qed.

Lemma createPaymentRequest_collision_witness :
  sliceLast 4 "user1234" = sliceLast 4 "bot-1234"
  /\ userId <$> payments
        (snd (createPaymentRequest
                (snd (createPaymentRequest Samples.ledger0 "user1234" "t1" 1000))
                "bot-1234" "t2" 1000)) !! "PAY-1000-1234"
     = Some "bot-1234".
Proof.
  split; [reflexivity|].
  destruct (createPaymentRequest_collision Samples.ledger0
              "user1234" "t1" "bot-1234" "t2" 1000 eq_refl) as (_ & _ & Hlookup).
  change "PAY-1000-1234"
    with (orderId (fst (createPaymentRequest Samples.ledger0 "user1234" "t1" 1000))).
  by rewrite Hlookup.
Defined.

(** What [payment.status = st] does to the ledger when the payment is filed
    under its own order id. *)
Lemma assignStatus_keyed ps payment st :
  payments (assignStatus ps (orderId payment) payment st)
  = <[orderId payment := withStatus st payment]> (payments ps).
Proof. unfold assignStatus. simpl. by rewrite insert_insert_eq. Qed.

(** [verifyPayment] on one order leaves the other orders alone. *)
Lemma verifyPayment_other_orders ps oid txHash env (other : string) :
  (forall p, payments ps !! oid = Some p -> orderId p = oid) ->
  other ≠ oid ->
  payments (snd (verifyPayment ps oid txHash env)) !! other = payments ps !! other
  /\ failedPayments (snd (verifyPayment ps oid txHash env)) !! other
     = failedPayments ps !! other.
Proof.
  intros Hkeyed Hother. unfold verifyPayment, verifyPaymentTry.
  destruct (payments ps !! oid) as [payment|] eqn:Hknown.
  - pose proof (Hkeyed _ eq_refl) as Hoid. subst oid.
    destruct (hasPaymentExpired ps payment (now env)); cbn [snd].
    + unfold handleExpiredPayment. rewrite updateStored_payments,
        updateStored_failedPayments, assignStatus_keyed.
      by rewrite lookup_insert_ne.
    + unfold retryVerification.
      destruct (attemptsOf ps (orderId payment) >=? maxAttempts (retryConfig ps));
        cbn [snd].
      * unfold handleMaxRetriesExceeded. rewrite updateStored_payments,
          updateStored_failedPayments, assignStatus_keyed.
        by rewrite lookup_insert_ne.
      * destruct (externalCheck ps payment txHash env) as [[|] s]; cbn [snd].
        -- unfold handleSuccessfulPayment. rewrite updateStored_payments,
             updateStored_failedPayments.
           cbn [payments failedPayments withFailedPayments].
           rewrite assignStatus_keyed. cbn [payments withStorage].
           rewrite lookup_insert_ne by done.
           split; [done|]. unfold assignStatus. simpl.
           by rewrite lookup_delete_ne.
        -- unfold handleFailedVerification, recordFailure. simpl.
           by rewrite lookup_insert_ne.
  - cbn [snd]. unfold handlePaymentError, recordFailure. simpl.
    by rewrite lookup_insert_ne.
Qed.

(** X21. [verifyPayment] touches one order only: when the order it is called
    for is unknown or filed under its own id, every other order keeps its
    payment and its failure record, whatever the call does. *)
Theorem verifyPayment_frame ps oid txHash env (other : string) :
  (forall p, payments ps !! oid = Some p -> orderId p = oid) ->
  other ≠ oid ->
  payments (snd (verifyPayment ps oid txHash env)) !! other = payments ps !! other
  /\ failedPayments (snd (verifyPayment ps oid txHash env)) !! other
     = failedPayments ps !! other
  /\ retryConfig (snd (verifyPayment ps oid txHash env)) = retryConfig ps.
Proof.
  intros Hkeyed Hother.
  destruct (verifyPayment_other_orders ps oid txHash env other Hkeyed Hother)
    as [Hpayments Hfailed].
  split; [done|]. split; [done|]. apply verifyPayment_retryConfig.
Qed.

Lemma verifyPayment_frame_witness :
  (forall p, payments Samples.ledger1 !! "PAY-404" = Some p -> orderId p = "PAY-404")
  /\ Samples.order1 ≠ "PAY-404"
  /\ payments (snd (verifyPayment Samples.ledger1 "PAY-404" None
                      (Samples.envAt 2000 0))) !! Samples.order1
     = payments Samples.ledger1 !! Samples.order1.
Proof.
  assert (forall p, payments Samples.ledger1 !! "PAY-404" = Some p ->
                    orderId p = "PAY-404") as Hkeyed by (intros p Hp; discriminate Hp).
  assert (Samples.order1 ≠ "PAY-404") as Hother by discriminate.
  split; [exact Hkeyed|]. split; [exact Hother|].
  exact (proj1 (verifyPayment_frame Samples.ledger1 "PAY-404" None
                  (Samples.envAt 2000 0) Samples.order1 Hkeyed Hother)).
Defined.

(** X22. The check by transaction hash keeps no record of the hashes it has
    accepted.  One transaction that the chain confirms for the bot's wallet
    and the expected amount completes every order it is presented for: two
    different orders with the same wallet and amount, neither expired nor
    out of attempts, are both answered [true] and both end [completed] when
    [verifyPayment] is called for each with the same hash. *)
Theorem one_transaction_pays_two_orders ps (oid1 oid2 : string) (p1 p2 : PaymentDetails)
  (c : ascii) (h : string) (env1 env2 : Env) :
  oid1 ≠ oid2 ->
  payments ps !! oid1 = Some p1 ->
  payments ps !! oid2 = Some p2 ->
  orderId p1 = oid1 ->
  orderId p2 = oid2 ->
  walletAddresses p2 = walletAddresses p1 ->
  amount p2 = amount p1 ->
  getTransaction env2 (String c h) = getTransaction env1 (String c h) ->
  hasPaymentExpired ps p1 (now env1) = false ->
  hasPaymentExpired ps p2 (now env2) = false ->
  attemptsOf ps oid1 < maxAttempts (retryConfig ps) ->
  attemptsOf ps oid2 < maxAttempts (retryConfig ps) ->
  verifyEthereumTransaction env1 (String c h) p1 = true ->
  fst (verifyPayment ps oid1 (Some (String c h)) env1) = true
  /\ fst (verifyPayment (snd (verifyPayment ps oid1 (Some (String c h)) env1))
            oid2 (Some (String c h)) env2) = true
  /\ status <$> payments
        (snd (verifyPayment (snd (verifyPayment ps oid1 (Some (String c h)) env1))
                oid2 (Some (String c h)) env2)) !! oid1 = Some completed
  /\ status <$> payments
        (snd (verifyPayment (snd (verifyPayment ps oid1 (Some (String c h)) env1))
                oid2 (Some (String c h)) env2)) !! oid2 = Some completed.
Proof.
  intros Hdiff Hp1 Hp2 Hoid1 Hoid2 Hwallet Hamount Htx Hfresh1 Hfresh2
    Hfew1 Hfew2 Hvalid.
  assert (verifyEthereumTransaction env2 (String c h) p2 = true) as Hvalid2.
  { unfold verifyEthereumTransaction, expectedAmount in *.
    by rewrite Htx, Hwallet, Hamount. }
  assert (forall p, payments ps !! oid1 = Some p -> orderId p = oid1) as Hkeyed1
    by (intros p Hp; congruence).
  destruct (verifyPayment_other_orders ps oid1 (Some (String c h)) env1 oid2
              Hkeyed1 ltac:(done)) as [Hkept Hfailed].
  assert (verifyPayment ps oid1 (Some (String c h)) env1
          = (true, handleSuccessfulPayment ps oid1 p1)) as Hrun1
    by (apply verifyPayment_by_hash; by rewrite ?Hoid1).
  rewrite Hrun1 in *. cbn [fst snd] in *.
  set (ps1 := handleSuccessfulPayment ps oid1 p1) in *.
  assert (payments ps1 !! oid2 = Some p2) as Hp2' by (by rewrite Hkept).
  assert (retryConfig ps1 = retryConfig ps) as Hconfig by done.
  assert (payments ps1 !! oid1 = Some (withStatus completed p1)) as Hdone1.
  { unfold ps1. rewrite <- Hoid1. apply handleSuccessfulPayment_lookup. }
  assert (forall p, payments ps1 !! oid2 = Some p -> orderId p = oid2) as Hkeyed2
    by (intros p Hp; congruence).
  destruct (verifyPayment_other_orders ps1 oid2 (Some (String c h)) env2 oid1
              Hkeyed2 ltac:(done)) as [Hkept1 _].
  assert (verifyPayment ps1 oid2 (Some (String c h)) env2
          = (true, handleSuccessfulPayment ps1 oid2 p2)) as Hrun2.
  { apply verifyPayment_by_hash; [done | | | done].
    - unfold hasPaymentExpired in *. by rewrite Hconfig.
    - rewrite Hconfig, Hoid2. unfold attemptsOf in *. by rewrite Hfailed. }
  rewrite Hrun2 in *. cbn [fst snd] in *.
  split; [done|]. split; [done|]. split.
  - by rewrite Hkept1, Hdone1.
  - rewrite <- Hoid2.
    by rewrite (proj1 (handleSuccessfulPayment_lookup ps1 p2)).
Qed.

Lemma one_transaction_pays_two_orders_witness :
  fst (verifyPayment Samples.ledgerTwo Samples.order1 (Some "0xabc")
         (Samples.envPaid 2000)) = true
  /\ fst (verifyPayment
            (snd (verifyPayment Samples.ledgerTwo Samples.order1 (Some "0xabc")
                    (Samples.envPaid 2000)))
            Samples.order2 (Some "0xabc") (Samples.envPaid 3000)) = true.
Proof.
  destruct (one_transaction_pays_two_orders Samples.ledgerTwo
              Samples.order1 Samples.order2
              (fst (createPaymentRequest Samples.ledger0 "user1234" "t1" 1000))
              (fst (createPaymentRequest Samples.ledger0 "user5678" "t2" 1001))
              "0" "xabc" (Samples.envPaid 2000) (Samples.envPaid 3000))
    as (Hfirst & Hsecond & _);
    [discriminate | reflexivity | reflexivity | reflexivity | reflexivity
     | reflexivity | reflexivity | reflexivity | reflexivity | reflexivity
     | by vm_compute | by vm_compute | by vm_compute |].
  split; [exact Hfirst | exact Hsecond].
Defined.

(** X23. A proof by transaction hash can be replayed: once [verifyPayment]
    has accepted a hash for an order, calling it again for the same order
    with the same hash, while the chain still knows the transaction and the
    verification time has not run out, answers [true] again, leaves the
    payment [completed] and records no failure. *)
Theorem verifyPayment_by_hash_again ps oid (c : ascii) (h : string)
  (env env' : Env) payment :
  payments ps !! oid = Some payment ->
  orderId payment = oid ->
  hasPaymentExpired ps payment (now env) = false ->
  attemptsOf ps oid < maxAttempts (retryConfig ps) ->
  0 < maxAttempts (retryConfig ps) ->
  verifyEthereumTransaction env (String c h) payment = true ->
  getTransaction env' (String c h) = getTransaction env (String c h) ->
  hasPaymentExpired ps payment (now env') = false ->
  fst (verifyPayment ps oid (Some (String c h)) env) = true
  /\ fst (verifyPayment (snd (verifyPayment ps oid (Some (String c h)) env))
            oid (Some (String c h)) env') = true
  /\ status <$> payments
        (snd (verifyPayment (snd (verifyPayment ps oid (Some (String c h)) env))
                oid (Some (String c h)) env')) !! oid = Some completed
  /\ failedPayments
       (snd (verifyPayment (snd (verifyPayment ps oid (Some (String c h)) env))
               oid (Some (String c h)) env')) !! oid = None.
Proof.
  intros Hknown Hoid Hfresh Hfew Hmax Hvalid Htx Hfresh'. subst oid.
  rewrite (verifyPayment_by_hash ps (orderId payment) env c h payment)
    by done.
  cbn [fst snd]. split; [done|].
  destruct (handleSuccessfulPayment_lookup ps payment) as (Hdone & Hnone & Hconfig).
  set (ps1 := handleSuccessfulPayment ps (orderId payment) payment) in *.
  rewrite (verifyPayment_by_hash ps1 (orderId payment) env' c h
             (withStatus completed payment) Hdone).
  - cbn [fst snd]. split; [done|].
    destruct (handleSuccessfulPayment_lookup ps1 (withStatus completed payment))
      as (Hdone' & Hnone' & _).
    cbn [orderId withStatus] in Hdone', Hnone'.
    split; [by rewrite Hdone' | exact Hnone'].
  - unfold hasPaymentExpired in *. by rewrite Hconfig.
  - rewrite Hconfig. unfold attemptsOf. cbn [orderId withStatus].
    by rewrite Hnone.
  - unfold verifyEthereumTransaction in *. by rewrite Htx.
Qed.

Lemma verifyPayment_by_hash_again_witness :
  fst (verifyPayment Samples.ledger1 Samples.order1 (Some "0xabc")
         (Samples.envPaid 2000)) = true
  /\ fst (verifyPayment
            (snd (verifyPayment Samples.ledger1 Samples.order1 (Some "0xabc")
                    (Samples.envPaid 2000)))
            Samples.order1 (Some "0xabc") (Samples.envPaid 3000)) = true.
Proof.
  destruct (verifyPayment_by_hash_again Samples.ledger1 Samples.order1
              "0" "xabc" (Samples.envPaid 2000) (Samples.envPaid 3000)
              (fst (createPaymentRequest Samples.ledger0 "user1234" "t1" 1000)))
    as (Hfirst & Hsecond & _);
    [reflexivity | reflexivity | reflexivity | by vm_compute | by vm_compute
     | by vm_compute | reflexivity | reflexivity |].
  split; [exact Hfirst | exact Hsecond].
Defined.

Lemma recordFailure_filed ps oid message t :
  filedUnderOwnId ps -> filedUnderOwnId (recordFailure ps oid message t).
Proof.
  intros [Hp Hf]. split; [done|]. unfold recordFailure.
  cbn [failedPayments withFailedPayments]. by apply map_Forall_insert_2.
Qed.

Lemma assignStatus_filed ps payment st :
  filedUnderOwnId ps ->
  filedUnderOwnId (assignStatus ps (orderId payment) payment st).
Proof.
  intros [Hp Hf]. split; [|done]. rewrite assignStatus_keyed.
  by apply map_Forall_insert_2.
Qed.

Lemma updateStored_filed ps oid st :
  filedUnderOwnId ps -> filedUnderOwnId (updateStored ps oid st).
Proof. by intros [Hp Hf]. Qed.

Lemma withStorage_filed ps s :
  filedUnderOwnId ps -> filedUnderOwnId (Payment.withStorage ps s).
Proof. by intros [Hp Hf]. Qed.

Lemma verifyPayment_filed ps oid txHash env :
  filedUnderOwnId ps -> filedUnderOwnId (snd (verifyPayment ps oid txHash env)).
Proof.
  intros Hfiled. unfold verifyPayment, verifyPaymentTry.
  destruct (payments ps !! oid) as [payment|] eqn:Hknown; cbn [snd].
  - pose proof (proj1 Hfiled _ _ Hknown) as Hoid. cbn beta in Hoid. subst oid.
    destruct (hasPaymentExpired ps payment (now env)); cbn [snd].
    + by apply updateStored_filed, assignStatus_filed.
    + unfold retryVerification.
      destruct (attemptsOf ps (orderId payment) >=? maxAttempts (retryConfig ps));
        cbn [snd].
      * by apply updateStored_filed, assignStatus_filed.
      * destruct (externalCheck ps payment txHash env) as [[|] s]; cbn [snd].
        -- apply updateStored_filed.
           destruct (assignStatus_filed (Payment.withStorage ps s) payment
                       completed (withStorage_filed ps s Hfiled)) as [Hp Hf].
           split; [done|]. cbn [failedPayments withFailedPayments].
           by apply map_Forall_delete.
        -- by apply recordFailure_filed, withStorage_filed.
  - by apply recordFailure_filed.
Qed.

Lemma perform_filed ps (call : Call) env :
  filedUnderOwnId ps -> filedUnderOwnId (perform ps call env).
Proof.
  intros Hfiled. destruct call as [user tweet|oid txHash|oid]; cbn [perform].
  - destruct Hfiled as [Hp Hf]. split; [|done]. unfold createPaymentRequest.
    cbn [snd payments withPayments]. by apply map_Forall_insert_2.
  - by apply verifyPayment_filed.
  - unfold retryFailedPayment.
    destruct (failedPayments ps !! oid) as [failedPayment|] eqn:Hrecord;
      [|done].
    apply verifyPayment_filed. destruct Hfiled as [Hp Hf]. split; [done|].
    cbn [failedPayments withFailedPayments].
    apply map_Forall_insert_2; [|done]. exact (Hf _ _ Hrecord).
Qed.

Lemma performAll_filed ps (calls : list (Call * Env)) :
  filedUnderOwnId ps -> filedUnderOwnId (performAll ps calls).
Proof.
  unfold performAll. revert ps.
  induction calls as [|[call env] calls IH]; intros ps Hfiled; [done|].
  cbn [foldl fst snd]. by apply IH, perform_filed.
Qed.

(** X24. Whatever sequence of [createPaymentRequest], [verifyPayment] and
    [retryFailedPayment] calls is made on a new payment service, at whatever
    times and with whatever answers of the chain, every payment of the
    ledger is filed under its own order id and every failure record under
    the order id it names. *)
Theorem ledger_filed_under_own_id (s : Storage.StorageService)
  (w : Storage.WalletAddresses) (calls : list (Call * Env)) :
  filedUnderOwnId (performAll (Payment.create s w) calls).
Proof. apply performAll_filed. split; apply map_Forall_empty. Qed.

Lemma firstMatch_insert_status oid m (i : nat) k r st :
  m !! i = Some (k, r) ->
  Storage.firstMatch oid (<[i := (k, Storage.withStatus st r)]> m)
  = Storage.firstMatch oid m.
Proof.
  revert i. induction m as [|[k0 r0] rest IH]; intros [|i] Hi; try done.
  - cbn in Hi. injection Hi as -> ->. done.
  - cbn [Storage.firstMatch]. cbn in Hi.
    change (<[S i := (k, Storage.withStatus st r)]> ((k0, r0) :: rest))
      with ((k0, r0) :: <[i := (k, Storage.withStatus st r)]> rest).
    cbn [Storage.firstMatch]. by rewrite (IH i Hi).
Qed.

(** With a transaction hash, [verifyPayment] either leaves the payments and
    the request store alone or assigns one status to both. *)
Lemma verifyPayment_by_hash_cases ps oid (c : ascii) (h : string) env :
  filedUnderOwnId ps ->
  (payments (snd (verifyPayment ps oid (Some (String c h)) env)) = payments ps
   /\ storageService (snd (verifyPayment ps oid (Some (String c h)) env))
      = storageService ps)
  \/ exists payment st,
       payments ps !! oid = Some payment
       /\ payments (snd (verifyPayment ps oid (Some (String c h)) env))
          = <[oid := withStatus st payment]> (payments ps)
       /\ storageService (snd (verifyPayment ps oid (Some (String c h)) env))
          = Storage.updatePaymentStatus (storageService ps) oid st.
Proof.
  intros Hfiled. unfold verifyPayment, verifyPaymentTry.
  destruct (payments ps !! oid) as [payment|] eqn:Hknown; cbn [snd];
    [|by left].
  pose proof (proj1 Hfiled _ _ Hknown) as Hoid. cbn beta in Hoid. subst oid.
  destruct (hasPaymentExpired ps payment (now env)); cbn [snd].
  - right. exists payment, failed. split; [done|].
    unfold handleExpiredPayment. rewrite updateStored_payments.
    by rewrite assignStatus_keyed.
  - unfold retryVerification.
    destruct (attemptsOf ps (orderId payment) >=? maxAttempts (retryConfig ps));
      cbn [snd].
    + right. exists payment, failed. split; [done|].
      unfold handleMaxRetriesExceeded. rewrite updateStored_payments.
      by rewrite assignStatus_keyed.
    + unfold externalCheck. rewrite withStorage_same.
      destruct (verifyEthereumTransaction env (String c h) payment); cbn [snd].
      * right. exists payment, completed. split; [done|].
        unfold handleSuccessfulPayment. rewrite updateStored_payments.
        cbn [payments withFailedPayments]. by rewrite assignStatus_keyed.
      * by left.
Qed.

(** X25. [verifyPayment] with a transaction hash keeps the request store in
    step with the ledger.  On a ledger whose payments are filed under their
    own order ids and a store whose requests are filed under their own tweet
    ids: when, for every order id, the first stored request carrying it has
    the status the ledger has for it before the call, the same holds after
    the call, whatever the call does. *)
Theorem verifyPayment_keeps_store_in_step ps oid (c : ascii) (h : string) env :
  filedUnderOwnId ps ->
  Storage.wellKeyed (Storage.requests (storageService ps)) ->
  inStep ps ->
  inStep (snd (verifyPayment ps oid (Some (String c h)) env)).
Proof.
  intros Hfiled Hwf Hstep.
  destruct (verifyPayment_by_hash_cases ps oid c h env Hfiled)
    as [[Hsame Hstore]|(payment & st & Hknown & Hpayments & Hstore)].
  - unfold inStep. rewrite Hsame, Hstore. exact Hstep.
  - unfold inStep. rewrite Hpayments, Hstore.
    rewrite (updatePaymentStatus_requests _ oid st Hwf).
    intros oid' j k' r' payment' Hfirst Hj Hledger.
    destruct (Storage.firstMatch oid (Storage.requests (storageService ps)))
      as [i|] eqn:Hi.
    + destruct (firstMatch_Some _ _ _ Hi) as (k & r & Hlook & Hcarries & _).
      rewrite Hlook in Hfirst, Hj.
      rewrite (firstMatch_insert_status oid' _ i k r st Hlook) in Hfirst.
      destruct (decide (oid' = oid)) as [->|Hne].
      * assert (j = i) as -> by congruence.
        rewrite list_lookup_insert_eq in Hj
          by (by eapply lookup_lt_Some).
        injection Hj as <- <-. rewrite lookup_insert_eq in Hledger.
        by injection Hledger as <-.
      * rewrite lookup_insert_ne in Hledger by done.
        destruct (firstMatch_Some _ _ _ Hfirst) as (k2 & r2 & Hlook2 & Hcarries2 & _).
        assert (i ≠ j) as Hij by (intros ->; congruence).
        rewrite list_lookup_insert_ne in Hj by done.
        by eapply Hstep.
    + destruct (decide (oid' = oid)) as [->|Hne]; [congruence|].
      rewrite lookup_insert_ne in Hledger by done. by eapply Hstep.
Qed.

Lemma ledgerStored_filed : filedUnderOwnId Samples.ledgerStored.
Proof.
  apply withStorage_filed, performAll_filed. split; apply map_Forall_empty.
Qed.

Lemma ledgerStored_inStep : inStep Samples.ledgerStored.
Proof.
  intros oid i k r payment _ Hi Hledger.
  assert (status payment = pending) as ->.
  { unfold Samples.ledgerStored, Samples.ledgerTwo, performAll in Hledger.
    cbn [foldl fst snd perform createPaymentRequest payments withPayments
         Payment.withStorage] in Hledger.
    apply lookup_insert_Some in Hledger as [[_ <-]|[_ Hledger]]; [done|].
    apply lookup_insert_Some in Hledger as [[_ <-]|[_ Hledger]]; [done|].
    done. }
  destruct i as [|[|i]]; cbn in Hi; [by injection Hi as <- <-.. | done].
Qed.

Lemma verifyPayment_keeps_store_in_step_witness :
  inStep (snd (verifyPayment Samples.ledgerStored Samples.order1
                 (Some "0xabc") (Samples.envPaid 2000))).
Proof.
  apply (verifyPayment_keeps_store_in_step Samples.ledgerStored Samples.order1
           "0" "xabc" (Samples.envPaid 2000)).
  - exact ledgerStored_filed.
  - split; [by repeat constructor|].
    exact (bool_decide_unpack (NoDup ["t1"; "t2"]) I).
  - exact ledgerStored_inStep.
Defined.

End LedgerFacts.
